(** * Content-addressable artifact store (storageManager.ts)

    A shallow embedding of the storage manager service of the package
    analyzer: [storeContent], [retrieveContent], [generateContentHash] and
    the three wrappers [storeReadme], [storeAnalysisResults] and
    [storeLogOutput], together with the pieces of the platform they call:
    Node's [Buffer.from] (UTF-8 encoding of a JavaScript string), Node's
    [crypto.createHash('sha256')] (FIPS 180-4) and the object-storage client
    (buckets holding named objects, every call of which may be refused). *)

From Stdlib Require Import ZArith NArith List Lia.
From Stdlib.Strings Require Import Ascii String Byte.
From Stdlib.Numbers Require Import DecimalString.
From stdpp Require Import base option list gmap.

Set Default Proof Using "Type".

(** ** JavaScript strings and Node buffers *)

(** A JavaScript string is a sequence of UTF-16 code units; a [Buffer] is a
    sequence of bytes. *)
Abbreviation jsstring := (list N) (only parsing).
Abbreviation Buffer := (list byte) (only parsing).

(** A string literal of the source: one code unit per (ASCII) character. *)
Definition js (s : string) : jsstring :=
  map N_of_ascii (list_ascii_of_string s).

Definition byte_of_N (n : N) : byte :=
  match Byte.of_N (n mod 256)%N with
  | Some b => b
  | None => x00
  end.

Module Utf8.
Local Open Scope N_scope.

Definition is_high_surrogate (u : N) : bool := (0xD800 <=? u) && (u <=? 0xDBFF).
Definition is_low_surrogate (u : N) : bool := (0xDC00 <=? u) && (u <=? 0xDFFF).

(** The continuation byte carrying bits [6k+5 .. 6k] of a code point. *)
Definition cont (c : N) (k : N) : byte :=
  byte_of_N (N.lor 0x80 (N.land (N.shiftr c (6 * k)) 0x3F)).

(** The UTF-8 bytes of one code point. *)
Definition encode_code_point (c : N) : Buffer :=
  if c <? 0x80 then [byte_of_N c]
  else if c <? 0x800 then [byte_of_N (N.lor 0xC0 (N.shiftr c 6)); cont c 0]
  else if c <? 0x10000 then
    [byte_of_N (N.lor 0xE0 (N.shiftr c 12)); cont c 1; cont c 0]
  else
    [byte_of_N (N.lor 0xF0 (N.shiftr c 18)); cont c 2; cont c 1; cont c 0].

(** U+FFFD, written for a surrogate without its partner. *)
Definition replacement : Buffer := encode_code_point 0xFFFD.

Definition pair_code_point (hi lo : N) : N :=
  0x10000 + N.shiftl (hi - 0xD800) 10 + (lo - 0xDC00).

(** [Buffer.from(s)] with the default encoding, 'utf8'. *)
Fixpoint encode (s : jsstring) : Buffer :=
  match s with
  | [] => []
  | u :: rest =>
      if is_high_surrogate u then
        match rest with
        | v :: rest' =>
            if is_low_surrogate v
            then encode_code_point (pair_code_point u v) ++ encode rest'
            else replacement ++ encode rest
        | [] => replacement
        end
      else if is_low_surrogate u then replacement ++ encode rest
      else encode_code_point u ++ encode rest
  end.
End Utf8.

Definition Buffer_from (s : jsstring) : Buffer := Utf8.encode s.

(** ** SHA-256 (FIPS 180-4), as computed by [crypto.createHash('sha256')] *)

Module SHA256.
Local Open Scope Z_scope.

Definition wrap (x : Z) : Z := x mod 2 ^ 32.
Definition add32 (x y : Z) : Z := wrap (x + y).
Definition rotr (n x : Z) : Z :=
  Z.lor (Z.shiftr x n) (wrap (Z.shiftl x (32 - n))).
Definition shr (n x : Z) : Z := Z.shiftr x n.
Definition not32 (x : Z) : Z := Z.lxor x 0xFFFFFFFF.

Definition Ch (x y z : Z) : Z := Z.lxor (Z.land x y) (Z.land (not32 x) z).
Definition Maj (x y z : Z) : Z :=
  Z.lxor (Z.lxor (Z.land x y) (Z.land x z)) (Z.land y z).
Definition bsig0 (x : Z) : Z := Z.lxor (Z.lxor (rotr 2 x) (rotr 13 x)) (rotr 22 x).
Definition bsig1 (x : Z) : Z := Z.lxor (Z.lxor (rotr 6 x) (rotr 11 x)) (rotr 25 x).
Definition ssig0 (x : Z) : Z := Z.lxor (Z.lxor (rotr 7 x) (rotr 18 x)) (shr 3 x).
Definition ssig1 (x : Z) : Z := Z.lxor (Z.lxor (rotr 17 x) (rotr 19 x)) (shr 10 x).

(** The first sixty-four primes. *)
Definition primes : list Z :=
  [2; 3; 5; 7; 11; 13; 17; 19; 23; 29; 31; 37; 41; 43; 47; 53; 59; 61; 67; 71;
   73; 79; 83; 89; 97; 101; 103; 107; 109; 113; 127; 131; 137; 139; 149; 151;
   157; 163; 167; 173; 179; 181; 191; 193; 197; 199; 211; 223; 227; 229; 233;
   239; 241; 251; 257; 263; 269; 271; 277; 281; 283; 293; 307; 311].

(** Integer cube root, one bit at a time from bit [k - 1] down. *)
Fixpoint cube_root_bits (k : nat) (n r : Z) : Z :=
  match k with
  | O => r
  | S k' =>
      let r' := Z.lor r (Z.shiftl 1 (Z.of_nat k')) in
      cube_root_bits k' n (if r' * r' * r' <=? n then r' else r)
  end.

Definition cube_root (n : Z) : Z := cube_root_bits 40 n 0.

(** Round constants: the first 32 bits of the fractional parts of the cube
    roots of the first sixty-four primes. *)
Definition round_constants : list Z :=
  map (fun p => wrap (cube_root (p * 2 ^ 96))) primes.

(** The eight working variables a..h, also the intermediate hash value. *)
Record regs := Regs {
  ra : Z; rb : Z; rc : Z; rd : Z; re : Z; rf : Z; rg : Z; rh : Z
}.

(** Initial hash value: the first 32 bits of the fractional parts of the
    square roots of the first eight primes. *)
Definition root_word (p : Z) : Z := wrap (Z.sqrt (p * 2 ^ 64)).

Definition initial_hash : regs :=
  Regs (root_word 2) (root_word 3) (root_word 5) (root_word 7)
       (root_word 11) (root_word 13) (root_word 17) (root_word 19).

(** Padding: a 1 bit, zero bits up to 56 mod 64 bytes, then the length in
    bits as a 64-bit big-endian integer. *)
Definition be_bytes (n : nat) (x : Z) : list Z :=
  map (fun i => Z.land (Z.shiftr x (8 * Z.of_nat i)) 0xFF) (rev (seq 0 n)).

Definition pad (msg : list Z) : list Z :=
  let len := Z.of_nat (length msg) in
  msg ++ [0x80] ++ repeat 0 (Z.to_nat ((55 - len) mod 64)) ++ be_bytes 8 (8 * len).

(** Big-endian 32-bit words of a byte sequence (whole words only). *)
Fixpoint words (bs : list Z) : list Z :=
  match bs with
  | b0 :: b1 :: b2 :: b3 :: rest =>
      (Z.shiftl b0 24 + Z.shiftl b1 16 + Z.shiftl b2 8 + b3) :: words rest
  | _ => []
  end.

(** The message schedule: [window] holds the last sixteen words; each step
    emits its oldest word and appends the next one. *)
Definition next_word (window : list Z) : Z :=
  add32 (add32 (add32 (ssig1 (nth 14 window 0)) (nth 9 window 0))
               (ssig0 (nth 1 window 0)))
        (nth 0 window 0).

Fixpoint schedule (n : nat) (window : list Z) : list Z :=
  match n with
  | O => []
  | S n' => nth 0 window 0 :: schedule n' (tl window ++ [next_word window])
  end.

Definition round (s : regs) (kw : Z * Z) : regs :=
  let '(k, w) := kw in
  let t1 := add32 (add32 (add32 (add32 (rh s) (bsig1 (re s))) (Ch (re s) (rf s) (rg s))) k) w in
  let t2 := add32 (bsig0 (ra s)) (Maj (ra s) (rb s) (rc s)) in
  Regs (add32 t1 t2) (ra s) (rb s) (rc s) (add32 (rd s) t1) (re s) (rf s) (rg s).

Definition add_regs (x y : regs) : regs :=
  Regs (add32 (ra x) (ra y)) (add32 (rb x) (rb y)) (add32 (rc x) (rc y))
       (add32 (rd x) (rd y)) (add32 (re x) (re y)) (add32 (rf x) (rf y))
       (add32 (rg x) (rg y)) (add32 (rh x) (rh y)).

Definition compress (h : regs) (block : list Z) : regs :=
  add_regs h (fold_left round (combine round_constants (schedule 64 block)) h).

(** One compression per sixteen-word block. *)
Fixpoint process (nblocks : nat) (ws : list Z) (h : regs) : regs :=
  match nblocks with
  | O => h
  | S n => process n (skipn 16 ws) (compress h (firstn 16 ws))
  end.

Definition digest (msg : Buffer) : regs :=
  let ws := words (pad (map (fun b => Z.of_N (Byte.to_N b)) msg)) in
  process (length ws / 16) ws initial_hash.

(** Lower-case hexadecimal rendering, as [hash.digest('hex')]. *)
Definition hex_digit (d : Z) : N :=
  if d <? 10 then Z.to_N (48 + d) else Z.to_N (87 + d).

Definition nibble (w : Z) (shift : Z) : N :=
  hex_digit (Z.land (Z.shiftr w shift) 0xF).

Definition hex_word (w : Z) : jsstring :=
  [nibble w 28; nibble w 24; nibble w 20; nibble w 16;
   nibble w 12; nibble w 8; nibble w 4; nibble w 0].

Definition hex (h : regs) : jsstring :=
  hex_word (ra h) ++ hex_word (rb h) ++ hex_word (rc h) ++ hex_word (rd h) ++
  hex_word (re h) ++ hex_word (rf h) ++ hex_word (rg h) ++ hex_word (rh h).
End SHA256.

Definition sha256_hex (b : Buffer) : jsstring := SHA256.hex (SHA256.digest b).

Definition ascii_bytes (s : string) : Buffer :=
  map byte_of_ascii (list_ascii_of_string s).

(** ** Promises, errors and the storage backend *)

(** What the storage client reports when it refuses a call. *)
Record api_error := ApiErr { code : Z; reason : jsstring }.

(** Values thrown in this module: [new Error(message)] of the source or of
    the storage client, a [TypeError] of the runtime, or an error the storage
    service answered with. *)
Inductive exn :=
| Error (message : jsstring)
| TypeError (message : jsstring)
| ApiError (e : api_error).

(** How an awaited promise settles. *)
Inductive outcome (A : Type) :=
| Resolved (a : A)
| Rejected (e : exn).
Arguments Resolved {A} a.
Arguments Rejected {A} e.

(** A stored object: its bytes and the metadata attached by [file.save]. *)
Record object := Object {
  data : Buffer;
  object_contentType : jsstring;
  object_metadata : list (jsstring * jsstring)
}.

(** The backend: buckets by name, each mapping object names to objects, and
    the answers the service will give to the coming calls: [Some e] refuses
    the call with [e], [None] (or no entry) serves it. A refused call leaves
    the buckets as they are: an upload stores the whole object or nothing. *)
Record world := World {
  buckets : gmap (list N) (gmap (list N) object);
  faults : list (option api_error)
}.

(** Asynchronous computations over the backend. *)
Definition M (A : Type) : Type := world -> outcome A * world.

Definition ret {A} (a : A) : M A := fun w => (Resolved a, w).
Definition throw {A} (e : exn) : M A := fun w => (Rejected e, w).
Definition bind {A B} (m : M A) (k : A -> M B) : M B :=
  fun w =>
    match m w with
    | (Resolved a, w') => k a w'
    | (Rejected e, w') => (Rejected e, w')
    end.

Declare Scope async_scope.
Delimit Scope async_scope with async.
Notation "'await' m 'as' x ';;' k" := (bind m (fun x => k))
  (at level 10, m at level 99, x name, k at level 200) : async_scope.
Notation "'await' m ';;' k" := (bind m (fun _ => k))
  (at level 10, m at level 99, k at level 200) : async_scope.
Local Open Scope async_scope.

(** Every call to the service first meets the service's next answer. *)
Definition request : M unit := fun w =>
  match faults w with
  | Some e :: rest => (Rejected (ApiError e), World (buckets w) rest)
  | _ => (Resolved tt, World (buckets w) (tl (faults w)))
  end.

Definition object_at (w : world) (bucketName fullPath : jsstring) : option object :=
  buckets w !! bucketName ≫= fun objects => objects !! fullPath.

(** [bucket.exists()] *)
Definition bucket_exists (bucketName : jsstring) : M bool :=
  await request;;
  fun w => (Resolved (bool_decide (is_Some (buckets w !! bucketName))), w).

(** [bucket.create()]: a name already taken is a conflict. *)
Definition bucket_create (bucketName : jsstring) : M unit :=
  await request;;
  fun w =>
    match buckets w !! bucketName with
    | Some _ => (Rejected (ApiError (ApiErr 409 (js "Conflict"))), w)
    | None => (Resolved tt, World (<[bucketName := ∅]> (buckets w)) (faults w))
    end.

(** [file.save(data, {contentType, metadata})]: one upload that creates the
    object or replaces the one of that name. *)
Definition file_save (bucketName fullPath : jsstring) (content : Buffer)
    (contentType : jsstring) (metadata : list (jsstring * jsstring)) : M unit :=
  await request;;
  fun w =>
    match buckets w !! bucketName with
    | Some objects =>
        (Resolved tt,
         World (<[bucketName := <[fullPath := Object content contentType metadata]> objects]>
                  (buckets w))
               (faults w))
    | None => (Rejected (ApiError (ApiErr 404 (js "Not Found"))), w)
    end.

(** [file.exists()]: false when the bucket or the object is absent. *)
Definition file_exists (bucketName fullPath : jsstring) : M bool :=
  await request;;
  fun w => (Resolved (bool_decide (is_Some (object_at w bucketName fullPath))), w).

(** [file.download()] *)
Definition file_download (bucketName fullPath : jsstring) : M Buffer :=
  await request;;
  fun w =>
    match object_at w bucketName fullPath with
    | Some o => (Resolved (data o), w)
    | None => (Rejected (ApiError (ApiErr 404 (js "Not Found"))), w)
    end.

(** ** The storage client *)

(** Does [s] start with [prefix]? *)
Fixpoint starts_with (prefix s : jsstring) : bool :=
  match prefix, s with
  | [], _ => true
  | a :: prefix', b :: s' => (a =? b)%N && starts_with prefix' s'
  | _ :: _, [] => false
  end.

(** [name.replace(/^gs:\/\//, '')] *)
Definition strip_scheme (name : jsstring) : jsstring :=
  if starts_with (js "gs://") name then drop (length (js "gs://")) name else name.

(** [name.replace(/\/+$/, '')]: without its trailing slashes. *)
Fixpoint strip_trailing_slashes (name : jsstring) : jsstring :=
  match name with
  | [] => []
  | u :: rest =>
      match strip_trailing_slashes rest with
      | [] => if (u =? N_of_ascii "/")%N then [] else [u]
      | kept => u :: kept
      end
  end.

(** The name under which the client asks the service for a bucket: the
    name it was given, without a leading "gs://" and without trailing
    slashes. *)
Definition bucket_id (name : jsstring) : jsstring :=
  strip_trailing_slashes (strip_scheme name).

Definition BUCKET_NAME_REQUIRED : jsstring :=
  js "A bucket name is needed to use Cloud Storage.".

(** [storage.bucket(name)]: no call of the service. The client throws for an
    empty name, and otherwise gives the handle of the bucket, which is known
    here by the name its calls will use. Thrown in an [async] function, the
    error rejects its promise. *)
Definition storage_bucket (name : jsstring) : M jsstring :=
  match name with
  | [] => throw (Error BUCKET_NAME_REQUIRED)
  | _ :: _ => ret (bucket_id name)
  end.

(** ** types.ts *)

Module StorageInfo.
Record t := Build {
  bucket : jsstring;
  path : jsstring;
  filename : jsstring;
  contentHash : jsstring;
  contentType : jsstring;
  size : nat
}.
End StorageInfo.

(** A value of type [string | Buffer]. *)
Inductive content :=
| Str (s : jsstring)
| Buf (b : Buffer).

(** [typeof content === 'string' ? Buffer.from(content) : content] *)
Definition to_buffer (c : content) : Buffer :=
  match c with
  | Str s => Buffer_from s
  | Buf b => b
  end.

(** ** storageManager.ts *)

(** What [JSON.stringify(value, null, 2)] does: it returns a string, or
    [undefined] (for [undefined], a function or a symbol), or it throws (a
    [TypeError] for a cyclic object or a BigInt, or whatever a [toJSON]
    method throws). *)
Inductive stringified :=
| Text (s : jsstring)
| Undefined
| Throws (e : exn).

(** What the module reads from its platform: the environment variable
    [process.env.GOOGLE_CLOUD_PROJECT] as it is when the module is loaded
    ([None] when unset), the values handed to
    [JSON.stringify(value, null, 2)] and what it does with each. *)
Class Platform := {
  GOOGLE_CLOUD_PROJECT : option jsstring;
  any : Type;
  JSON_stringify : any -> stringified
}.

(** An unset or empty variable is falsy. *)
Definition DEFAULT_BUCKET_NAME {P : Platform} : jsstring :=
  match GOOGLE_CLOUD_PROJECT with
  | Some (u :: project) => (u :: project) ++ js "-cas"
  | _ => js "agentic-readme-cas"
  end.

Definition generateContentHash (c : content) : jsstring :=
  sha256_hex (to_buffer c).

(** [bucketName] is [None] when the caller leaves the argument out.
    [storage.bucket(bucketName)] (line 51) is not awaited: what it throws
    rejects the promise of the [async] function all the same. The reference
    returned carries the bucket name as it was given. *)
Definition storeContent {P : Platform} (c : content) (extension contentType : jsstring)
    (bucketName : option jsstring) : M StorageInfo.t :=
  let bucketName := default DEFAULT_BUCKET_NAME bucketName in
  let contentBuffer := to_buffer c in
  let contentHash := generateContentHash (Buf contentBuffer) in
  let filename := contentHash ++ js "." ++ extension in
  let path := js "cas" in
  let fullPath := path ++ js "/" ++ filename in
  bind (storage_bucket bucketName) (fun bucket =>
  await bucket_exists bucket as exists_;;
  await (if negb exists_ then bucket_create bucket else ret tt);;
  await file_save bucket fullPath contentBuffer contentType
          [(js "contentHash", contentHash); (js "originalExtension", extension)];;
  ret (StorageInfo.Build bucketName path filename contentHash contentType
         (length contentBuffer))).

Definition retrieveContent (storageInfo : StorageInfo.t) : M Buffer :=
  let bucketName := StorageInfo.bucket storageInfo in
  let fullPath :=
    StorageInfo.path storageInfo ++ js "/" ++ StorageInfo.filename storageInfo in
  bind (storage_bucket bucketName) (fun bucket =>
  await file_exists bucket fullPath as exists_;;
  if negb exists_ then throw (Error (js "File not found: " ++ fullPath))
  else
    await file_download bucket fullPath as content;;
    ret content).

Definition storeReadme {P : Platform} (readme packageName packageVersion : jsstring)
    : M StorageInfo.t :=
  storeContent (Str readme) (js "md") (js "text/markdown") (Some DEFAULT_BUCKET_NAME).

(** [hash.update(undefined)] of Node's [crypto] throws a [TypeError] with
    this message (code ERR_INVALID_ARG_TYPE). *)
Definition ERR_INVALID_ARG_TYPE : jsstring :=
  js "The " ++ [0x22%N] ++ js "data" ++ [0x22%N] ++
  js " argument must be of type string or an instance of Buffer, TypedArray, or DataView. Received undefined".

(** When [JSON.stringify] returns a string, that string is the content.
    When it returns [undefined], [storeContent] is called with [undefined]:
    it is no string, so it is handed as it is to [generateContentHash]
    (line 41), whose [hash.update] throws before the bucket is looked at.
    When it throws, nothing else is run. *)
Definition storeAnalysisResults {P : Platform} (results : any)
    (packageName packageVersion : jsstring) : M StorageInfo.t :=
  match JSON_stringify results with
  | Text jsonContent =>
      storeContent (Str jsonContent) (js "json") (js "application/json")
        (Some DEFAULT_BUCKET_NAME)
  | Undefined => throw (TypeError ERR_INVALID_ARG_TYPE)
  | Throws e => throw e
  end.

Definition storeLogOutput {P : Platform} (log packageName packageVersion : jsstring)
    : M StorageInfo.t :=
  storeContent (Str log) (js "log") (js "text/plain") (Some DEFAULT_BUCKET_NAME).

(** ** Notions used by the statements *)

(** The backend serves every coming call. *)
Definition healthy (w : world) : Prop := Forall (fun o => o = None) (faults w).

(** The world once one more answer of the service has been used. *)
Definition served (w : world) : world := World (buckets w) (tl (faults w)).

(** The [k]-th coming call is the first one refused, with error [a]. *)
Definition first_fault (fs : list (option api_error)) (k : nat) (a : api_error) : Prop :=
  fs !! k = Some (Some a) /\ forall j, (j < k)%nat -> fs !! j = Some None.

(** A reference names a storage location: the client has no bucket for
    an empty name. *)
Definition well_formed (info : StorageInfo.t) : Prop := StorageInfo.bucket info <> [].

(** Where [retrieveContent] looks for the object of a reference: in the
    bucket the client asks the service for, under [path/filename]. *)
Definition location (info : StorageInfo.t) : jsstring * jsstring :=
  (bucket_id (StorageInfo.bucket info),
   StorageInfo.path info ++ js "/" ++ StorageInfo.filename info).

Definition stored (w : world) (info : StorageInfo.t) : option object :=
  object_at w (location info).1 (location info).2.

(** The object a put of these arguments is meant to write. *)
Definition object_of (c : content) (extension contentType : jsstring) : object :=
  Object (to_buffer c) contentType
    [(js "contentHash", sha256_hex (to_buffer c)); (js "originalExtension", extension)].

(** The bucket map after the object [o] has been written at [(b, p)]. *)
Definition written (bs : gmap (list N) (gmap (list N) object))
    (b p : jsstring) (o : object) : gmap (list N) (gmap (list N) object) :=
  <[b := <[p := o]> (default ∅ (bs !! b))]> bs.

(** The reference a put of these arguments is meant to return, written with
    the words of the specification. *)
Definition reference_of {P : Platform} (c : content) (extension contentType : jsstring)
    (bucketName : option jsstring) : StorageInfo.t :=
  StorageInfo.Build (default DEFAULT_BUCKET_NAME bucketName) (js "cas")
    (sha256_hex (to_buffer c) ++ js "." ++ extension)
    (sha256_hex (to_buffer c)) contentType (length (to_buffer c)).




(** Put atomicity as the specification states it: after a put that failed,
    callers cannot tell that it ever started. Whatever the service answers
    from then on, every later get and every later put settles as it would
    have on the backend as it was before the failed put. *)
Definition put_atomicity {P : Platform} : Prop :=
  forall c ext ct bkt w e w1,
    storeContent c ext ct bkt w = (Rejected e, w1) ->
    forall fs,
      (forall info,
         (retrieveContent info (World (buckets w1) fs)).1 =
         (retrieveContent info (World (buckets w) fs)).1) /\
      (forall c' ext' ct' bkt',
         (storeContent c' ext' ct' bkt' (World (buckets w1) fs)).1 =
         (storeContent c' ext' ct' bkt' (World (buckets w) fs)).1).

(** ** The scenario of the specification *)

Module Scenario.
(** No project configured. A value handed to [JSON.stringify] is known by
    the text it is serialised to; [None] is [undefined]. *)
#[export] Instance platform : Platform := {|
  GOOGLE_CLOUD_PROJECT := None;
  any := option jsstring;
  JSON_stringify := fun value =>
    match value with
    | Some text => Text text
    | None => Undefined
    end
|}.

(** An empty backend that serves every call. *)
Definition empty_backend : world := World ∅ [].

(** "# Hello\n" *)
Definition hello : content := Str (js "# Hello" ++ [10%N]).
Definition hello_bytes : Buffer := ascii_bytes "# Hello" ++ [x0a].
Definition markdown : jsstring := js "text/markdown".

Definition hello_reference : StorageInfo.t :=
  StorageInfo.Build (js "agentic-readme-cas") (js "cas")
    (js "90f8ec5669cd34183b9b0fdf8b94f5efb4c3672876330f4aa76088c2b4ad17be.md")
    (js "90f8ec5669cd34183b9b0fdf8b94f5efb4c3672876330f4aa76088c2b4ad17be")
    markdown 8.

(** The backend after the put of the scenario. *)
Definition after_hello : world :=
  (storeContent hello (js "md") markdown None empty_backend).2.

Definition json_reference : StorageInfo.t :=
  reference_of hello (js "json") markdown None.
Definition after_json : world :=
  (storeContent hello (js "json") markdown None after_hello).2.

Definition quota : api_error := ApiErr 429 (js "Quota exceeded").

(** A backend without the bucket, that serves the existence check and the
    creation of the bucket and then refuses the write. *)
Definition refusing_write : world := World ∅ [None; None; Some quota].
Definition after_refused_write : world :=
  (storeContent hello (js "md") markdown None refusing_write).2.

End Scenario.

(** ** Reading a stored string back *)

(** [buffer.toString('utf8')]: the UTF-8 decoder, which never fails: every
    maximal ill-formed run of bytes becomes one U+FFFD. *)
Module Utf8Decoder.
Local Open Scope N_scope.

(** The decoder between two bytes: the code point read so far, the number of
    continuation bytes still needed and the range allowed for the next. *)
Record state := State {
  code_point : N;
  needed : nat;
  lower : N;
  upper : N
}.

Definition idle : state := State 0 0 0x80 0xBF.

(** The UTF-16 code units of a code point. *)
Definition code_units (c : N) : jsstring :=
  if c <? 0x10000 then [c]
  else [0xD800 + N.shiftr (c - 0x10000) 10; 0xDC00 + N.land (c - 0x10000) 0x3FF].

(** A byte met when no sequence is open. *)
Definition start (b : N) : jsstring * state :=
  if b <=? 0x7F then ([b], idle)
  else if (0xC2 <=? b) && (b <=? 0xDF) then ([], State (N.land b 0x1F) 1 0x80 0xBF)
  else if (0xE0 <=? b) && (b <=? 0xEF) then
    ([], State (N.land b 0xF) 2
           (if b =? 0xE0 then 0xA0 else 0x80) (if b =? 0xED then 0x9F else 0xBF))
  else if (0xF0 <=? b) && (b <=? 0xF4) then
    ([], State (N.land b 0x7) 3
           (if b =? 0xF0 then 0x90 else 0x80) (if b =? 0xF4 then 0x8F else 0xBF))
  else ([0xFFFD], idle).

(** One byte: a byte outside the allowed range ends the open sequence with
    U+FFFD and is read again as the start of a sequence. *)
Definition step (d : state) (b : N) : jsstring * state :=
  match needed d with
  | O => start b
  | S n =>
      if (lower d <=? b) && (b <=? upper d) then
        let c := N.lor (N.shiftl (code_point d) 6) (N.land b 0x3F) in
        match n with
        | O => (code_units c, idle)
        | S _ => ([], State c n 0x80 0xBF)
        end
      else
        let '(out, d') := start b in (0xFFFD :: out, d')
  end.

Fixpoint decode_from (d : state) (bs : Buffer) : jsstring :=
  match bs with
  | [] => match needed d with O => [] | S _ => [0xFFFD] end
  | b :: rest =>
      let '(out, d') := step d (Byte.to_N b) in
      out ++ decode_from d' rest
  end.

Definition decode (bs : Buffer) : jsstring := decode_from idle bs.
End Utf8Decoder.

Definition Buffer_toString (b : Buffer) : jsstring := Utf8Decoder.decode b.


(** [retrieveContentAsString] of storageManager.ts. *)
Definition retrieveContentAsString (storageInfo : StorageInfo.t) : M jsstring :=
  await retrieveContent storageInfo as content;;
  ret (Buffer_toString content).

(** [String.prototype.toWellFormed]: every surrogate without its partner
    becomes U+FFFD. *)
Fixpoint toWellFormed (s : jsstring) : jsstring :=
  match s with
  | [] => []
  | u :: rest =>
      if Utf8.is_high_surrogate u then
        match rest with
        | v :: rest' =>
            if Utf8.is_low_surrogate v then u :: v :: toWellFormed rest'
            else 0xFFFD%N :: toWellFormed rest
        | [] => [0xFFFD%N]
        end
      else if Utf8.is_low_surrogate u then 0xFFFD%N :: toWellFormed rest
      else u :: toWellFormed rest
  end.

(** Strings of 16-bit code units in which surrogates only come in pairs. *)
Inductive WellFormed : jsstring -> Prop :=
| WellFormed_nil : WellFormed []
| WellFormed_unit u s :
    (u < 0x10000)%N ->
    Utf8.is_high_surrogate u = false -> Utf8.is_low_surrogate u = false ->
    WellFormed s -> WellFormed (u :: s)
| WellFormed_pair hi lo s :
    Utf8.is_high_surrogate hi = true -> Utf8.is_low_surrogate lo = true ->
    WellFormed s -> WellFormed (hi :: lo :: s).

(** ** Notions for the decoder *)

Section DecoderNotions.
Import Utf8Decoder.
Local Open Scope N_scope.
(** Code units that survive [toWellFormed] whatever follows them. *)
Definition clean (out : jsstring) : Prop :=
  Forall (fun u => u < 0x10000) out /\
  forall t, toWellFormed (out ++ t) = out ++ toWellFormed t.

(** What the decoder knows of the code point of an open sequence. *)
Definition open_ok (d : state) : Prop :=
  match needed d with
  | 0%nat => True
  | 1%nat =>
      lower d = 0x80 /\ upper d = 0xBF /\
      2 <= code_point d <= 0x43FF /\ ~ (0x360 <= code_point d <= 0x37F)
  | 2%nat =>
      0x80 <= lower d /\ upper d <= 0xBF /\ code_point d <= 0x10F /\
      (code_point d = 0 -> 0xA0 <= lower d) /\ (code_point d = 13 -> upper d <= 0x9F)
  | 3%nat =>
      0x80 <= lower d /\ upper d <= 0xBF /\ code_point d <= 4 /\
      (code_point d = 0 -> 0x90 <= lower d) /\ (code_point d = 4 -> upper d <= 0x8F)
  | _ => False
  end.

End DecoderNotions.

(** ** utils.ts: the validators *)

(** Regular expressions without groups to refer back to and without
    look-around, over UTF-16 code units. *)
Module RegExp.
Inductive pattern :=
| Fail
| Empty
| Class (ranges : list (N * N))
| Seq (p q : pattern)
| Alt (p q : pattern)
| Star (p : pattern).

(** [(?:p)?] and [p+] *)
Definition Opt (p : pattern) : pattern := Alt p Empty.
Definition Plus (p : pattern) : pattern := Seq p (Star p).

(** A range [a-b] and a single character of a class. *)
Definition range (a b : ascii) : N * N := (N_of_ascii a, N_of_ascii b).
Definition one (a : ascii) : N * N := range a a.
Definition Char (a : ascii) : pattern := Class [one a].

Definition in_class (ranges : list (N * N)) (c : N) : bool :=
  existsb (fun r => (r.1 <=? c)%N && (c <=? r.2)%N) ranges.

(** Whether the pattern matches the empty string. *)
Fixpoint nullable (p : pattern) : bool :=
  match p with
  | Fail => false
  | Empty => true
  | Class _ => false
  | Seq p q => nullable p && nullable q
  | Alt p q => nullable p || nullable q
  | Star _ => true
  end.

(** What remains to match after the code unit [c]. *)
Fixpoint derive (c : N) (p : pattern) : pattern :=
  match p with
  | Fail => Fail
  | Empty => Fail
  | Class ranges => if in_class ranges c then Empty else Fail
  | Seq p q =>
      if nullable p then Alt (Seq (derive c p) q) (derive c q)
      else Seq (derive c p) q
  | Alt p q => Alt (derive c p) (derive c q)
  | Star p => Seq (derive c p) (Star p)
  end.

(** [/^p$/.test(s)]: whether the whole of [s] matches [p]. *)
Definition test (p : pattern) (s : jsstring) : bool :=
  nullable (fold_left (fun p c => derive c p) s p).

(** The strings of a pattern. *)
Inductive matches : pattern -> jsstring -> Prop :=
| matches_empty : matches Empty []
| matches_class ranges c : in_class ranges c = true -> matches (Class ranges) [c]
| matches_seq p q s t : matches p s -> matches q t -> matches (Seq p q) (s ++ t)
| matches_alt_l p q s : matches p s -> matches (Alt p q) s
| matches_alt_r p q s : matches q s -> matches (Alt p q) s
| matches_star_nil p : matches (Star p) []
| matches_star_cons p s t : matches p s -> matches (Star p) t -> matches (Star p) (s ++ t).
End RegExp.

Import RegExp.

(** [[a-z0-9-~]] and [[a-z0-9-._~]] *)
Definition name_first : pattern :=
  Class [range "a" "z"; range "0" "9"; one "-"; one "~"].
Definition name_char : pattern :=
  Class [range "a" "z"; range "0" "9"; one "-"; one "."; one "_"; one "~"].

(** The expression of [isValidPackageName]: an optional scope, [@], a name
    and [/], then a name; a name is one of [[a-z0-9-~]] and any of
    [[a-z0-9-._~]]. *)
Definition package_name_pattern : pattern :=
  Seq (Opt (Seq (Char "@") (Seq name_first (Seq (Star name_char) (Char "/")))))
      (Seq name_first (Star name_char)).

Definition isValidPackageName (packageName : jsstring) : bool :=
  test package_name_pattern packageName.

(** A digit [\d]; a number, [0] or [[1-9]] and digits; [[0-9a-zA-Z-]]. *)
Definition digit : pattern := Class [range "0" "9"].
Definition numeric : pattern :=
  Alt (Char "0") (Seq (Class [range "1" "9"]) (Star digit)).
Definition alphanumeric : pattern :=
  Class [range "0" "9"; range "a" "z"; range "A" "Z"; one "-"].

(** A pre-release identifier: a number, or digits, one of [[a-zA-Z-]] and
    any of [[0-9a-zA-Z-]]. *)
Definition prerelease_identifier : pattern :=
  Alt (Char "0")
    (Alt (Seq (Class [range "1" "9"]) (Star digit))
         (Seq (Star digit)
              (Seq (Class [range "a" "z"; range "A" "Z"; one "-"]) (Star alphanumeric)))).

(** The semantic versioning expression of [isValidPackageVersion]: three
    numbers between dots; then, optional, a hyphen and pre-release
    identifiers between dots; then, optional, a plus and build identifiers
    [[0-9a-zA-Z-]+] between dots. *)
Definition package_version_pattern : pattern :=
  Seq numeric (Seq (Char ".") (Seq numeric (Seq (Char ".") (Seq numeric
    (Seq (Opt (Seq (Char "-")
                 (Seq prerelease_identifier
                      (Star (Seq (Char ".") prerelease_identifier)))))
         (Opt (Seq (Char "+")
                 (Seq (Plus alphanumeric)
                      (Star (Seq (Char ".") (Plus alphanumeric))))))))))).

Definition isValidPackageVersion (version : jsstring) : bool :=
  test package_version_pattern version.

(** The characters of package names, by code unit. *)
Definition lowercase (c : N) : bool := (0x61 <=? c)%N && (c <=? 0x7A)%N.
Definition decimal_digit (c : N) : bool := (0x30 <=? c)%N && (c <=? 0x39)%N.
Definition is_char (a : ascii) (c : N) : bool := (c =? N_of_ascii a)%N.
Definition name_start (c : N) : bool :=
  lowercase c || decimal_digit c || is_char "-" c || is_char "~" c.
Definition name_part (c : N) : bool :=
  name_start c || is_char "." c || is_char "_" c.

(** An unscoped name: a start character, then name characters. *)
Definition plain_name (s : jsstring) : bool :=
  match s with
  | c :: cs => name_start c && forallb name_part cs
  | [] => false
  end.

(** A number of a version: [0], or digits not starting with [0]. *)
Definition version_number (s : jsstring) : bool :=
  match s with
  | [] => false
  | c :: cs =>
      if is_char "0" c then bool_decide (cs = [])
      else decimal_digit c && forallb decimal_digit cs
  end.

(** ** packageAnalyzer.ts: saving the results of an analysis *)

(** What [saveAnalysisResults] uses besides the store: the analysis
    results ([AnalysisResult] of types.ts) with the fields it reads of them,
    [JSON.stringify] of a reference, and the calls of the database client,
    each with the arguments the source gives it, running over a database of
    its own. An analysis result is an object of strings, booleans, and
    arrays and records of these: handed to [storeAnalysisResults], which
    takes any value, it is one that [JSON.stringify] serialises to a
    string. *)
Class Records {P : Platform} := {
  AnalysisResult : Type;
  readme_of : AnalysisResult -> option jsstring;
  description_of : AnalysisResult -> option jsstring;
  as_any : AnalysisResult -> any;
  JSON_stringify_result : AnalysisResult -> jsstring;
  JSON_stringify_as_any :
    forall analysisResult,
      JSON_stringify (as_any analysisResult) = Text (JSON_stringify_result analysisResult);
  JSON_stringify_info : StorageInfo.t -> jsstring;
  database : Type;
  PackageRecord : Type;
  PackageVersionRecord : Type;
  package_id : PackageRecord -> jsstring;
  packageVersion_id : PackageVersionRecord -> jsstring;
  prisma_package_upsert (name : jsstring) (description : option jsstring) :
    database -> outcome PackageRecord * database;
  prisma_packageVersion_upsert (packageId version : jsstring) :
    database -> outcome PackageVersionRecord * database;
  prisma_readme_upsert (packageVersionId content : jsstring) (verified : bool) :
    database -> outcome unit * database;
  prisma_verification_create
    (packageVersionId status analysisResults logOutput : jsstring) :
    database -> outcome unit * database
}.

(** Asynchronous computations over the store and the database. *)
Definition Task {P : Platform} {R : Records} (A : Type) : Type :=
  world * database -> outcome A * (world * database).

Section Tasks.
Context {P : Platform} {R : Records}.

Definition task_ret {A} (a : A) : Task A := fun s => (Resolved a, s).

Definition task_bind {A B} (m : Task A) (k : A -> Task B) : Task B :=
  fun s =>
    match m s with
    | (Resolved a, s') => k a s'
    | (Rejected e, s') => (Rejected e, s')
    end.

(** A call of the storage manager, and a call of the database client. *)
Definition in_store {A} (m : M A) : Task A :=
  fun s => let '(out, w) := m s.1 in (out, (w, s.2)).

Definition in_database {A} (q : database -> outcome A * database) : Task A :=
  fun s => let '(out, d) := q s.2 in (out, (s.1, d)).
End Tasks.

Declare Scope task_scope.
Delimit Scope task_scope with task.
Notation "'await' m 'as' x ';;' k" := (task_bind m (fun x => k))
  (at level 10, m at level 99, x name, k at level 200) : task_scope.
Notation "'await' m ';;' k" := (task_bind m (fun _ => k))
  (at level 10, m at level 99, k at level 200) : task_scope.

(** A string is truthy when it is there and not empty. *)
Definition truthy (s : option jsstring) : option jsstring :=
  match s with
  | Some (u :: rest) => Some (u :: rest)
  | _ => None
  end.

Definition saveAnalysisResults {P : Platform} {R : Records}
    (packageName packageVersion : jsstring) (analysisResult : AnalysisResult)
    (logOutput : jsstring) : Task PackageVersionRecord :=
  (await (match truthy (readme_of analysisResult) with
          | Some readme =>
              await in_store (storeReadme readme packageName packageVersion) as info;;
              task_ret (Some info)
          | None => task_ret None
          end) as readmeStorageInfo;;
   await in_store (storeAnalysisResults (as_any analysisResult) packageName packageVersion)
     as resultsStorageInfo;;
   await in_store (storeLogOutput logOutput packageName packageVersion)
     as logStorageInfo;;
   await in_database
     (prisma_package_upsert packageName (description_of analysisResult)) as pkg;;
   await in_database
     (prisma_packageVersion_upsert (package_id pkg) packageVersion)
     as packageVersionRecord;;
   await (match readmeStorageInfo with
          | Some info =>
              in_database
                (prisma_readme_upsert (packageVersion_id packageVersionRecord)
                   (JSON_stringify_info info) false)
          | None => task_ret tt
          end);;
   await in_database
     (prisma_verification_create (packageVersion_id packageVersionRecord)
        (js "SUCCEEDED") (JSON_stringify_info resultsStorageInfo)
        (JSON_stringify_info logStorageInfo));;
   task_ret packageVersionRecord)%task.

(** The references of the objects [saveAnalysisResults] stores. *)
Definition readme_reference {P : Platform} (readme : jsstring) : StorageInfo.t :=
  reference_of (Str readme) (js "md") (js "text/markdown") (Some DEFAULT_BUCKET_NAME).
Definition results_reference {P : Platform} {R : Records}
    (analysisResult : AnalysisResult) : StorageInfo.t :=
  reference_of (Str (JSON_stringify_result analysisResult)) (js "json")
    (js "application/json") (Some DEFAULT_BUCKET_NAME).
Definition log_reference {P : Platform} (log : jsstring) : StorageInfo.t :=
  reference_of (Str log) (js "log") (js "text/plain") (Some DEFAULT_BUCKET_NAME).

(** The references [saveAnalysisResults] obtains, each with the object it
    has stored for it: the README when there is one, the results, the log. *)
Definition saved_objects {P : Platform} {R : Records}
    (analysisResult : AnalysisResult) (logOutput : jsstring)
    : list (StorageInfo.t * object) :=
  match truthy (readme_of analysisResult) with
  | Some readme =>
      [(readme_reference readme, object_of (Str readme) (js "md") (js "text/markdown"))]
  | None => []
  end ++
  [(results_reference analysisResult,
    object_of (Str (JSON_stringify_result analysisResult)) (js "json")
      (js "application/json"));
   (log_reference logOutput, object_of (Str logOutput) (js "log") (js "text/plain"))].

(** The two parts of [saveAnalysisResults], for the statements: its calls of
    the storage manager, in order, and its calls of the database client. *)
Definition store_part {P : Platform} {R : Records}
    (packageName packageVersion : jsstring) (analysisResult : AnalysisResult)
    (logOutput : jsstring) : M (option StorageInfo.t * StorageInfo.t * StorageInfo.t) :=
  await (match truthy (readme_of analysisResult) with
         | Some readme =>
             await storeReadme readme packageName packageVersion as info;;
             ret (Some info)
         | None => ret None
         end) as readmeStorageInfo;;
  await storeAnalysisResults (as_any analysisResult) packageName packageVersion
    as resultsStorageInfo;;
  await storeLogOutput logOutput packageName packageVersion as logStorageInfo;;
  ret (readmeStorageInfo, resultsStorageInfo, logStorageInfo).

Definition database_part {P : Platform} {R : Records}
    (packageName packageVersion : jsstring) (analysisResult : AnalysisResult)
    (infos : option StorageInfo.t * StorageInfo.t * StorageInfo.t)
    (d : database) : outcome PackageVersionRecord * database :=
  let '(readmeStorageInfo, resultsStorageInfo, logStorageInfo) := infos in
  match prisma_package_upsert packageName (description_of analysisResult) d with
  | (Rejected e, d1) => (Rejected e, d1)
  | (Resolved pkg, d1) =>
      match prisma_packageVersion_upsert (package_id pkg) packageVersion d1 with
      | (Rejected e, d2) => (Rejected e, d2)
      | (Resolved packageVersionRecord, d2) =>
          match
            match readmeStorageInfo with
            | Some info =>
                prisma_readme_upsert (packageVersion_id packageVersionRecord)
                  (JSON_stringify_info info) false d2
            | None => (Resolved tt, d2)
            end
          with
          | (Rejected e, d3) => (Rejected e, d3)
          | (Resolved _, d3) =>
              match
                prisma_verification_create (packageVersion_id packageVersionRecord)
                  (js "SUCCEEDED") (JSON_stringify_info resultsStorageInfo)
                  (JSON_stringify_info logStorageInfo) d3
              with
              | (Rejected e, d4) => (Rejected e, d4)
              | (Resolved _, d4) => (Resolved packageVersionRecord, d4)
              end
          end
      end
  end.

(** What a computation over the store may do: change only the objects at
    the locations of [objects], use answers of the backend, and either
    resolve with every one of [objects] stored or reject with an error the
    backend gave. *)
Definition writes {A} (m : M A) (objects : list (StorageInfo.t * object)) : Prop :=
  forall w,
    (forall b p, Forall (fun io => (b, p) <> location io.1) objects ->
       object_at (m w).2 b p = object_at w b p) /\
    (exists n, faults (m w).2 = drop n (faults w)) /\
    ((exists a, (m w).1 = Resolved a /\
        Forall (fun io => stored (m w).2 io.1 = Some io.2) objects) \/
     (exists e, (m w).1 = Rejected (ApiError e) /\ In (Some e) (faults w))).

(** ** A scenario for [saveAnalysisResults] *)

Module SaveScenario.
Import Scenario.

(** [JSON.stringify] of a string: quotes, and escapes for the quote, the
    backslash, the control characters and lone surrogates. *)
Definition hex4 (c : N) : jsstring :=
  let z := Z.of_N c in
  [SHA256.nibble z 12; SHA256.nibble z 8; SHA256.nibble z 4; SHA256.nibble z 0].

Definition escape (c : N) : jsstring :=
  if (c =? 0x08)%N then js "\b"
  else if (c =? 0x09)%N then js "\t"
  else if (c =? 0x0A)%N then js "\n"
  else if (c =? 0x0C)%N then js "\f"
  else if (c =? 0x0D)%N then js "\r"
  else if (c =? 0x22)%N then [0x5C; 0x22]%N
  else if (c =? 0x5C)%N then [0x5C; 0x5C]%N
  else if (c <? 0x20)%N then js "\u" ++ hex4 c
  else [c].

Fixpoint quote_body (s : jsstring) : jsstring :=
  match s with
  | [] => []
  | u :: rest =>
      if Utf8.is_high_surrogate u then
        match rest with
        | v :: rest' =>
            if Utf8.is_low_surrogate v then u :: v :: quote_body rest'
            else js "\u" ++ hex4 u ++ quote_body rest
        | [] => js "\u" ++ hex4 u
        end
      else if Utf8.is_low_surrogate u then js "\u" ++ hex4 u ++ quote_body rest
      else escape u ++ quote_body rest
  end.

Definition quote (s : jsstring) : jsstring := [0x22%N] ++ quote_body s ++ [0x22%N].

(** [JSON.stringify] of a reference: its six fields in order. *)
Definition stringify_info (info : StorageInfo.t) : jsstring :=
  js "{" ++ quote (js "bucket") ++ js ":" ++ quote (StorageInfo.bucket info) ++
  js "," ++ quote (js "path") ++ js ":" ++ quote (StorageInfo.path info) ++
  js "," ++ quote (js "filename") ++ js ":" ++ quote (StorageInfo.filename info) ++
  js "," ++ quote (js "contentHash") ++ js ":" ++ quote (StorageInfo.contentHash info) ++
  js "," ++ quote (js "contentType") ++ js ":" ++ quote (StorageInfo.contentType info) ++
  js "," ++ quote (js "size") ++ js ":" ++
  js (NilZero.string_of_uint (Nat.to_uint (StorageInfo.size info))) ++ js "}".

Definition readme_text : jsstring := js "# Hello" ++ [10%N].

(** "A", a high surrogate on its own, then U+1F600 as a pair. *)
Definition lone_surrogate : jsstring := [0x41; 0xD800; 0xD83D; 0xDE00]%N.
Definition log_text : jsstring := js "Starting analysis of lodash@4.17.21".

(** [JSON.stringify(analysisResult, null, 2)] of the analysis result of the
    scenario: lodash 4.17.21 without description, no source files, no
    exports, and the README above. *)
Definition results_text : jsstring :=
  js "{" ++ [10%N] ++
  js "  " ++ quote (js "packageInfo") ++ js ": {" ++ [10%N] ++
  js "    " ++ quote (js "name") ++ js ": " ++ quote (js "lodash") ++ js "," ++ [10%N] ++
  js "    " ++ quote (js "version") ++ js ": " ++ quote (js "4.17.21") ++ [10%N] ++
  js "  }," ++ [10%N] ++
  js "  " ++ quote (js "sourceFiles") ++ js ": []," ++ [10%N] ++
  js "  " ++ quote (js "exports") ++ js ": []," ++ [10%N] ++
  js "  " ++ quote (js "readme") ++ js ": " ++ quote readme_text ++ js "," ++ [10%N] ++
  js "  " ++ quote (js "hasExistingReadme") ++ js ": false" ++ [10%N] ++
  js "}".

(** That one analysis result, and a database that cannot be reached: its
    first call is refused. The database counts its writes. *)
#[export] Instance records : Records := {|
  AnalysisResult := unit;
  readme_of := fun _ => Some readme_text;
  description_of := fun _ => None;
  as_any := fun _ => Some results_text;
  JSON_stringify_result := fun _ => results_text;
  JSON_stringify_as_any := fun _ => eq_refl;
  JSON_stringify_info := stringify_info;
  database := nat;
  PackageRecord := jsstring;
  PackageVersionRecord := jsstring;
  package_id := fun r => r;
  packageVersion_id := fun r => r;
  prisma_package_upsert := fun _ _ d =>
    (Rejected (Error (js "Can't reach database server")), d);
  prisma_packageVersion_upsert := fun _ _ d => (Resolved (js "version-1"), S d);
  prisma_readme_upsert := fun _ _ _ d => (Resolved tt, S d);
  prisma_verification_create := fun _ _ _ _ d => (Resolved tt, S d)
|}.

Definition saved : outcome PackageVersionRecord * (world * database) :=
  saveAnalysisResults (js "lodash") (js "4.17.21") tt log_text (empty_backend, 0%nat).
End SaveScenario.

(** ** Test vectors of FIPS 180-4 *)

Example sha256_constants :
  firstn 4 SHA256.round_constants = [0x428a2f98; 0x71374491; 0xb5c0fbcf; 0xe9b5dba5]%Z /\
  last SHA256.round_constants = Some 0xc67178f2%Z /\
  SHA256.ra SHA256.initial_hash = 0x6a09e667%Z /\
  SHA256.rh SHA256.initial_hash = 0x5be0cd19%Z.
Proof. vm_compute. repeat split; reflexivity. Qed.

Example sha256_empty :
  sha256_hex [] = js "e3b0c44298fc1c149afbf4c8996fb92427ae41e4649b934ca495991b7852b855".
Proof. vm_compute. reflexivity. Qed.

Example sha256_abc :
  sha256_hex (ascii_bytes "abc") =
  js "ba7816bf8f01cfea414140de5dae2223b00361a396177a9cb410ff61f20015ad".
Proof. vm_compute. reflexivity. Qed.

(** The checks of the repository's test of [generateContentHash]. *)
Example generateContentHash_consistent :
  generateContentHash (Str (js "Test content")) = generateContentHash (Str (js "Test content")) /\
  (0 < length (generateContentHash (Str (js "Test content"))))%nat.
Proof. vm_compute. split; [reflexivity | lia]. Qed.

Example generateContentHash_different :
  generateContentHash (Str (js "Test content 1")) <>
  generateContentHash (Str (js "Test content 2")).
Proof. vm_compute. discriminate. Qed.

Example sha256_two_blocks :
  sha256_hex (ascii_bytes "abcdbcdecdefdefgefghfghighijhijkijkljklmklmnlmnomnopnopq") =
  js "248d6a61d20638b8e5c026930c3e6039a33ce45964ff2167f6ecedd419db06c1".
Proof. vm_compute. reflexivity. Qed.



(** ** The digest as a string *)

Lemma sha256_hex_length (b : Buffer) : length (sha256_hex b) = 64%nat.
Proof. unfold sha256_hex, SHA256.hex. by destruct (SHA256.digest b). Qed.

Lemma generateContentHash_string (s : jsstring) :
  generateContentHash (Str s) = generateContentHash (Buf (Buffer_from s)).
Proof. reflexivity. Qed.

(** The default bucket has a name. *)
Lemma DEFAULT_BUCKET_NAME_not_empty {P : Platform} : DEFAULT_BUCKET_NAME <> [].
Proof.
  unfold DEFAULT_BUCKET_NAME.
  destruct GOOGLE_CLOUD_PROJECT as [[|u project]|]; first [done | by vm_compute].
Qed.

#[global] Opaque sha256_hex js Buffer_from.

(** ** The service calls *)

Section Backend.
Implicit Types (w : world) (b p : jsstring).

Lemma healthy_served w : healthy w -> healthy (served w).
Proof.
  unfold healthy, served; simpl. intros H.
  destruct (faults w); [done|]. by inversion H.
Qed.

Lemma request_healthy w : healthy w -> request w = (Resolved tt, served w).
Proof.
  unfold healthy, request, served. intros H.
  destruct (faults w) as [|[e|] fs]; try done. by inversion H.
Qed.

Lemma request_served w out w' : request w = (out, w') -> w' = served w.
Proof.
  unfold request, served.
  destruct (faults w) as [|[e|] fs]; simpl; congruence.
Qed.

Lemma object_at_served w b p : object_at (served w) b p = object_at w b p.
Proof. reflexivity. Qed.

Lemma object_at_written bs fs b p o b' p' :
  object_at (World (written bs b p o) fs) b' p' =
  if decide (b' = b /\ p' = p) then Some o else object_at (World bs fs) b' p'.
Proof.
  unfold object_at, written; simpl.
  destruct (decide (b' = b)) as [->|Hb].
  - rewrite lookup_insert_eq; simpl.
    destruct (decide (p' = p)) as [->|Hp].
    + rewrite lookup_insert_eq. by rewrite decide_True.
    + rewrite lookup_insert_ne by done. rewrite decide_False by (intros [? ?]; done).
      destruct (bs !! b); simpl; [done|]. apply lookup_empty.
  - rewrite lookup_insert_ne by done. by rewrite decide_False by (intros [? ?]; done).
Qed.

Lemma object_at_new_bucket bs fs b b' p' :
  bs !! b = None ->
  object_at (World (<[b := ∅]> bs) fs) b' p' = object_at (World bs fs) b' p'.
Proof.
  intros Hb. unfold object_at; simpl.
  destruct (decide (b' = b)) as [->|Hne].
  - rewrite lookup_insert_eq, Hb; simpl. apply lookup_empty.
  - by rewrite lookup_insert_ne.
Qed.

Lemma written_again bs b p o :
  written (written bs b p o) b p o = written bs b p o.
Proof.
  unfold written. rewrite lookup_insert_eq; simpl.
  by rewrite !insert_insert_eq.
Qed.
End Backend.

(** ** What a put and a get do, call by call *)

Section Claims.
Context {P : Platform}.

Lemma location_reference_of c ext ct bkt :
  location (reference_of c ext ct bkt) =
  (bucket_id (default DEFAULT_BUCKET_NAME bkt),
   js "cas" ++ js "/" ++ sha256_hex (to_buffer c) ++ js "." ++ ext).
Proof. reflexivity. Qed.

Lemma storage_bucket_run name w :
  name <> [] -> storage_bucket name w = (Resolved (bucket_id name), w).
Proof. by destruct name. Qed.

Lemma bucket_exists_run bs fs b :
  bucket_exists b (World bs fs) =
  match fs with
  | Some e :: rest => (Rejected (ApiError e), World bs rest)
  | _ => (Resolved (bool_decide (is_Some (bs !! b))), World bs (tl fs))
  end.
Proof. by destruct fs as [|[e|] rest]. Qed.

Lemma bucket_create_run bs fs b :
  bucket_create b (World bs fs) =
  match fs with
  | Some e :: rest => (Rejected (ApiError e), World bs rest)
  | _ =>
      match bs !! b with
      | Some _ => (Rejected (ApiError (ApiErr 409 (js "Conflict"))), World bs (tl fs))
      | None => (Resolved tt, World (<[b := ∅]> bs) (tl fs))
      end
  end.
Proof. by destruct fs as [|[e|] rest]. Qed.

Lemma file_save_run bs fs b p buf ct md :
  file_save b p buf ct md (World bs fs) =
  match fs with
  | Some e :: rest => (Rejected (ApiError e), World bs rest)
  | _ =>
      match bs !! b with
      | Some objects =>
          (Resolved tt, World (<[b := <[p := Object buf ct md]> objects]> bs) (tl fs))
      | None => (Rejected (ApiError (ApiErr 404 (js "Not Found"))), World bs (tl fs))
      end
  end.
Proof. by destruct fs as [|[e|] rest]. Qed.

Lemma file_exists_run bs fs b p :
  file_exists b p (World bs fs) =
  match fs with
  | Some e :: rest => (Rejected (ApiError e), World bs rest)
  | _ => (Resolved (bool_decide (is_Some (object_at (World bs fs) b p))), World bs (tl fs))
  end.
Proof. by destruct fs as [|[e|] rest]. Qed.

Lemma file_download_run bs fs b p :
  file_download b p (World bs fs) =
  match fs with
  | Some e :: rest => (Rejected (ApiError e), World bs rest)
  | _ =>
      match object_at (World bs fs) b p with
      | Some o => (Resolved (data o), World bs (tl fs))
      | None => (Rejected (ApiError (ApiErr 404 (js "Not Found"))), World bs (tl fs))
      end
  end.
Proof. by destruct fs as [|[e|] rest]. Qed.

Ltac run_step := cbn [negb tl default from_option id fst snd buckets faults].

Ltac used_answers :=
  cbn [faults];
  first [ by exists 0%nat | by exists 1%nat | by exists 2%nat | by exists 3%nat ].

Ltac fault_index k :=
  right; eexists _, k; repeat split;
  [ lia | intros [|[|j]] ?; simpl; first [reflexivity | lia] | ].

(** A put with a bucket name either resolves to the reference of its
    arguments, with the object written, or rejects with the error of the
    first backend call that was refused; then no object changed, and at most
    the empty bucket was created. *)
Lemma storeContent_named c ext ct bkt w out w1 :
  default DEFAULT_BUCKET_NAME bkt <> [] ->
  storeContent c ext ct bkt w = (out, w1) ->
  let info := reference_of c ext ct bkt in
  (exists n, faults w1 = drop n (faults w)) /\
  ((out = Resolved info /\
   buckets w1 = written (buckets w) (location info).1 (location info).2 (object_of c ext ct))
  \/
  (exists a k, out = Rejected (ApiError a) /\ (k < 3)%nat /\ first_fault (faults w) k a /\
     (buckets w1 = buckets w \/
      (buckets w !! (location info).1 = None /\
       buckets w1 = <[(location info).1 := ∅]> (buckets w))))).
Proof.
  destruct w as [bs fs]. intros Hname Hrun info. subst info.
  rewrite location_reference_of. cbn [fst snd buckets faults].
  revert Hrun.
  unfold storeContent, generateContentHash, first_fault, written.
  unfold bind at 1. rewrite (storage_bucket_run _ _ Hname).
  unfold bind, ret.
  set (b := bucket_id (default DEFAULT_BUCKET_NAME bkt)).
  rewrite bucket_exists_run.
  destruct (bs !! b) as [objects|] eqn:Hb.
  - rewrite bool_decide_eq_true_2 by done.
    destruct fs as [|[a0|] fs]; run_step.
    + rewrite file_save_run, Hb. run_step. intros [= <- <-]; (split; [used_answers|]). by left.
    + intros [= <- <-]; (split; [used_answers|]). fault_index 0%nat. by left.
    + rewrite file_save_run, Hb.
      destruct fs as [|[a1|] fs]; run_step; intros [= <- <-]; (split; [used_answers|]).
      * by left.
      * fault_index 1%nat. by left.
      * by left.
  - rewrite bool_decide_eq_false_2 by (intros [? ?]; done).
    destruct fs as [|[a0|] fs]; run_step.
    + rewrite bucket_create_run, Hb. run_step.
      rewrite file_save_run, lookup_insert_eq. run_step.
      intros [= <- <-]; (split; [used_answers|]). left. split; [done|]. by rewrite insert_insert_eq.
    + intros [= <- <-]; (split; [used_answers|]). fault_index 0%nat. by left.
    + rewrite bucket_create_run, Hb.
      destruct fs as [|[a1|] fs]; run_step.
      * rewrite file_save_run, lookup_insert_eq. run_step.
        intros [= <- <-]; (split; [used_answers|]). left. split; [done|]. by rewrite insert_insert_eq.
      * intros [= <- <-]; (split; [used_answers|]). fault_index 1%nat. by left.
      * rewrite file_save_run, lookup_insert_eq.
        destruct fs as [|[a2|] fs]; run_step; intros [= <- <-]; (split; [used_answers|]).
        -- left. split; [done|]. by rewrite insert_insert_eq.
        -- fault_index 2%nat. right. by split.
        -- left. split; [done|]. by rewrite insert_insert_eq.
Qed.

(** Without a bucket name a put rejects with the error of the client, and
    no call of the service is made. *)
Lemma storeContent_unnamed c ext ct bkt w :
  default DEFAULT_BUCKET_NAME bkt = [] ->
  storeContent c ext ct bkt w = (Rejected (Error BUCKET_NAME_REQUIRED), w).
Proof. intros Hname. unfold storeContent, bind. by rewrite Hname. Qed.

(** A put, whatever its bucket name. *)
Lemma storeContent_run c ext ct bkt w out w1 :
  storeContent c ext ct bkt w = (out, w1) ->
  let info := reference_of c ext ct bkt in
  (exists n, faults w1 = drop n (faults w)) /\
  ((default DEFAULT_BUCKET_NAME bkt <> [] /\ out = Resolved info /\
   buckets w1 = written (buckets w) (location info).1 (location info).2 (object_of c ext ct))
  \/
  (default DEFAULT_BUCKET_NAME bkt = [] /\
   out = Rejected (Error BUCKET_NAME_REQUIRED) /\ w1 = w)
  \/
  (exists a k, default DEFAULT_BUCKET_NAME bkt <> [] /\
     out = Rejected (ApiError a) /\ (k < 3)%nat /\ first_fault (faults w) k a /\
     (buckets w1 = buckets w \/
      (buckets w !! (location info).1 = None /\
       buckets w1 = <[(location info).1 := ∅]> (buckets w))))).
Proof.
  intros Hrun info.
  destruct (decide (default DEFAULT_BUCKET_NAME bkt = [])) as [Hname|Hname].
  - rewrite (storeContent_unnamed _ _ _ _ _ Hname) in Hrun. injection Hrun as <- <-.
    split; [by exists 0%nat|]. right. by left.
  - destruct (storeContent_named _ _ _ _ _ _ _ Hname Hrun) as [Hdrop [[-> Hbs]|Hfail]].
    + split; [done|]. by left.
    + split; [done|]. right. right.
      destruct Hfail as (a & k & ? & ? & ? & ?). by exists a, k.
Qed.

(** A put that resolved had a bucket name, resolved to the reference of its
    arguments and has written the object. *)
Lemma storeContent_resolved c ext ct bkt w info w1 :
  storeContent c ext ct bkt w = (Resolved info, w1) ->
  default DEFAULT_BUCKET_NAME bkt <> [] /\
  info = reference_of c ext ct bkt /\
  buckets w1 =
    written (buckets w) (location (reference_of c ext ct bkt)).1
      (location (reference_of c ext ct bkt)).2 (object_of c ext ct).
Proof.
  intros Hrun.
  destruct (storeContent_run _ _ _ _ _ _ _ Hrun)
    as [_ [(Hname & [= ->] & Hbs)|[(_ & [=] & _)|(a & k & _ & [=] & _)]]].
  done.
Qed.

Lemma healthy_no_fault w k a : healthy w -> ~ first_fault (faults w) k a.
Proof.
  unfold healthy, first_fault. intros H [Hk _].
  apply list_elem_of_lookup_2 in Hk.
  rewrite Forall_forall in H. by apply H in Hk.
Qed.

Lemma healthy_drop w w1 n : healthy w -> faults w1 = drop n (faults w) -> healthy w1.
Proof. unfold healthy. intros H ->. by apply Forall_drop. Qed.

(** On a backend that serves every call a put with a bucket name
    resolves. *)
Lemma storeContent_healthy c ext ct bkt w :
  default DEFAULT_BUCKET_NAME bkt <> [] ->
  healthy w ->
  exists w1,
    storeContent c ext ct bkt w = (Resolved (reference_of c ext ct bkt), w1) /\
    healthy w1 /\
    buckets w1 =
      written (buckets w) (location (reference_of c ext ct bkt)).1
        (location (reference_of c ext ct bkt)).2 (object_of c ext ct).
Proof.
  intros Hname Hw. destruct (storeContent c ext ct bkt w) as [out w1] eqn:Hrun.
  destruct (storeContent_named _ _ _ _ _ _ _ Hname Hrun) as [[n Hn] [[-> Hbs]|Hfail]].
  - exists w1. eauto using healthy_drop.
  - destruct Hfail as (a & k & _ & _ & Hk & _). by apply healthy_no_fault in Hk.
Qed.

(** A get of a reference without a bucket name rejects with the error of
    the client, and no call of the service is made. *)
Lemma retrieveContent_unnamed info w :
  StorageInfo.bucket info = [] ->
  retrieveContent info w = (Rejected (Error BUCKET_NAME_REQUIRED), w).
Proof. intros Hname. unfold retrieveContent, bind. by rewrite Hname. Qed.

(** With a bucket name, a get is its two calls of the service. *)
Lemma retrieveContent_named info w :
  well_formed info ->
  retrieveContent info w =
  (let bucket := bucket_id (StorageInfo.bucket info) in
   let fullPath := StorageInfo.path info ++ js "/" ++ StorageInfo.filename info in
   await file_exists bucket fullPath as exists_;;
   if negb exists_ then throw (Error (js "File not found: " ++ fullPath))
   else
     await file_download bucket fullPath as content;;
     ret content) w.
Proof.
  intros Hname. unfold retrieveContent. unfold bind at 1.
  by rewrite (storage_bucket_run _ _ Hname).
Qed.

(** A get leaves the buckets alone; it rejects with the error of the first
    backend call refused, and otherwise returns the bytes of the object at
    the location of the reference, or reports that there is none. *)
Lemma retrieveContent_run info w out w1 :
  well_formed info ->
  retrieveContent info w = (out, w1) ->
  buckets w1 = buckets w /\
  (exists n, faults w1 = drop n (faults w)) /\
  ((exists a k, out = Rejected (ApiError a) /\ (k < 2)%nat /\ first_fault (faults w) k a)
   \/
   out = match stored w info with
         | Some o => Resolved (data o)
         | None => Rejected (Error (js "File not found: " ++ (location info).2))
         end).
Proof.
  destruct w as [bs fs]. intros Hname.
  unfold retrieveContent, stored, first_fault.
  unfold bind at 1. rewrite (storage_bucket_run _ _ Hname).
  unfold bind, throw, ret.
  cbn [location fst snd buckets faults].
  set (b := bucket_id (StorageInfo.bucket info)).
  set (p := StorageInfo.path info ++ js "/" ++ StorageInfo.filename info).
  rewrite file_exists_run.
  assert (Hfs : forall fs', object_at (World bs fs') b p = object_at (World bs fs) b p)
    by reflexivity.
  destruct (object_at (World bs fs) b p) as [o|] eqn:Ho.
  - rewrite bool_decide_eq_true_2 by done.
    destruct fs as [|[a0|] fs]; run_step.
    + rewrite file_download_run, Hfs. run_step.
      intros [= <- <-]; repeat split; [used_answers|by right].
    + intros [= <- <-]; repeat split; [used_answers|]. left.
      eexists _, 0%nat; repeat split; [lia|]. intros j ?; lia.
    + rewrite file_download_run, Hfs.
      destruct fs as [|[a1|] fs]; run_step;
        intros [= <- <-]; repeat split; try used_answers; try by right.
      left. eexists _, 1%nat; repeat split; [lia|].
      intros [|j] ?; simpl; first [reflexivity | lia].
  - rewrite bool_decide_eq_false_2 by (intros [? ?]; done).
    destruct fs as [|[a0|] fs]; run_step; intros [= <- <-];
      repeat split; try used_answers; try by right.
    left. eexists _, 0%nat; repeat split; [lia|]. intros j ?; lia.
Qed.

Lemma retrieveContent_healthy info w :
  well_formed info ->
  healthy w ->
  exists w1,
    retrieveContent info w =
      (match stored w info with
       | Some o => Resolved (data o)
       | None => Rejected (Error (js "File not found: " ++ (location info).2))
       end, w1) /\
    healthy w1 /\ buckets w1 = buckets w.
Proof.
  intros Hname Hw. destruct (retrieveContent info w) as [out w1] eqn:Hrun.
  destruct (retrieveContent_run _ _ _ _ Hname Hrun) as (Hbs & [n Hn] & [Hfail| ->]).
  - destruct Hfail as (a & k & _ & _ & Hk). by apply healthy_no_fault in Hk.
  - exists w1. eauto using healthy_drop.
Qed.

(** Two backends holding the same objects answer a get alike. *)
Lemma retrieveContent_ext info bs bs' fs :
  (forall b p, object_at (World bs fs) b p = object_at (World bs' fs) b p) ->
  (retrieveContent info (World bs fs)).1 = (retrieveContent info (World bs' fs)).1.
Proof.
  intros Hsame.
  destruct (decide (StorageInfo.bucket info = [])) as [Hname|Hname];
    [by rewrite !(retrieveContent_unnamed _ _ Hname)|].
  rewrite !(retrieveContent_named _ _ Hname).
  unfold bind, throw, ret.
  set (b := bucket_id (StorageInfo.bucket info)).
  set (p := StorageInfo.path info ++ js "/" ++ StorageInfo.filename info).
  specialize (Hsame b p). rewrite !file_exists_run.
  unfold object_at in *; cbn [buckets] in *. rewrite <- Hsame.
  destruct (bool_decide _); run_step.
  - destruct fs as [|[a0|] fs]; run_step; [|done|];
      rewrite !file_download_run; unfold object_at; cbn [buckets];
      rewrite <- Hsame; destruct (bs !! b ≫= _);
      first [done | by destruct fs as [|[a1|] fs]].
  - by destruct fs as [|[a0|] fs].
Qed.

Lemma stored_after_put c ext ct bkt w w1 :
  buckets w1 =
    written (buckets w) (location (reference_of c ext ct bkt)).1
      (location (reference_of c ext ct bkt)).2 (object_of c ext ct) ->
  stored w1 (reference_of c ext ct bkt) = Some (object_of c ext ct).
Proof.
  intros Hbs. unfold stored. destruct w1 as [bs1 fs1]; simpl in Hbs; subst bs1.
  rewrite object_at_written. by rewrite decide_True.
Qed.

(** ** The claims *)

(** C1. Round trip: when a put resolves, the object at the location of the
    returned reference holds exactly the bytes of the payload (the UTF-8
    bytes of a string, the buffer itself otherwise); a get of that
    reference can only resolve to these bytes or reject with the error of
    a refused backend call, and it resolves to them whenever the backend
    serves the calls. *)
Theorem storeContent_retrieveContent_roundtrip c ext ct bkt w info w1 :
  storeContent c ext ct bkt w = (Resolved info, w1) ->
  (data <$> stored w1 info) = Some (to_buffer c) /\
  (forall out w2, retrieveContent info w1 = (out, w2) ->
     out = Resolved (to_buffer c) \/
     exists a k, out = Rejected (ApiError a) /\ first_fault (faults w1) k a) /\
  (healthy w1 -> exists w2, retrieveContent info w1 = (Resolved (to_buffer c), w2)).
Proof.
  intros Hput.
  destruct (storeContent_resolved _ _ _ _ _ _ _ Hput) as (Hname & -> & Hbs).
  pose proof (stored_after_put _ _ _ _ _ _ Hbs) as Hst.
  assert (Hwf : well_formed (reference_of c ext ct bkt)) by exact Hname.
  split; [by rewrite Hst|]. split.
  - intros out w2 Hget.
    destruct (retrieveContent_run _ _ _ _ Hwf Hget) as (_ & _ & [Hfail| ->]).
    + right. destruct Hfail as (a & k & -> & _ & Hk). eauto.
    + left. by rewrite Hst.
  - intros Hw1.
    destruct (retrieveContent_healthy (reference_of c ext ct bkt) _ Hwf Hw1)
      as (w2 & Hget & _).
    exists w2. by rewrite Hget, Hst.
Qed.

(** C2. Reference construction: the reference a put resolves to has the
    file name hex(SHA-256(bytes)) + "." + extension, the path "cas", the
    content hash hex(SHA-256(bytes)), the content type of the caller and
    the number of bytes of the payload as its size. *)
Theorem storeContent_reference c ext ct bkt w info w1 :
  storeContent c ext ct bkt w = (Resolved info, w1) ->
  StorageInfo.filename info = sha256_hex (to_buffer c) ++ js "." ++ ext /\
  StorageInfo.path info = js "cas" /\
  StorageInfo.contentHash info = sha256_hex (to_buffer c) /\
  StorageInfo.contentType info = ct /\
  StorageInfo.size info = length (to_buffer c).
Proof.
  intros Hput.
  destruct (storeContent_resolved _ _ _ _ _ _ _ Hput) as (Hname & -> & _). done.
Qed.

(** C3. Dedup idempotence: after a put has resolved, a second put of the
    same payload, extension and content type never changes the stored
    objects; it can only resolve to the very same reference (so the same
    file name, content hash, size and location) or reject with the error
    of a refused backend call, and it resolves whenever the backend serves
    the calls. *)
Theorem storeContent_dedup c ext ct bkt w r1 w1 :
  storeContent c ext ct bkt w = (Resolved r1, w1) ->
  (forall out w2, storeContent c ext ct bkt w1 = (out, w2) ->
     buckets w2 = buckets w1 /\
     (out = Resolved r1 \/
      exists a k, out = Rejected (ApiError a) /\ first_fault (faults w1) k a)) /\
  (healthy w1 ->
   exists r2 w2, storeContent c ext ct bkt w1 = (Resolved r2, w2) /\
     StorageInfo.filename r2 = StorageInfo.filename r1 /\
     StorageInfo.contentHash r2 = StorageInfo.contentHash r1 /\
     StorageInfo.size r2 = StorageInfo.size r1 /\
     location r2 = location r1 /\
     buckets w2 = buckets w1).
Proof.
  intros Hput.
  destruct (storeContent_resolved _ _ _ _ _ _ _ Hput) as (Hname & -> & Hbs).
  assert (Hsecond : forall out w2, storeContent c ext ct bkt w1 = (out, w2) ->
     buckets w2 = buckets w1 /\
     (out = Resolved (reference_of c ext ct bkt) \/
      exists a k, out = Rejected (ApiError a) /\ first_fault (faults w1) k a)).
  { intros out w2 Hput2.
    destruct (storeContent_named _ _ _ _ _ _ _ Hname Hput2) as [_ [[-> Hbs2]|Hfail]].
    - split; [|by left]. rewrite Hbs2, Hbs. apply written_again.
    - destruct Hfail as (a & k & -> & _ & Hk & [Hsame|[Hnone _]]).
      + split; [done|]. right; eauto.
      + exfalso. rewrite Hbs in Hnone. unfold written in Hnone.
        by rewrite lookup_insert_eq in Hnone. }
  split; [done|]. intros Hw1.
  destruct (storeContent_healthy c ext ct bkt w1 Hname Hw1) as (w2 & Hput2 & _ & _).
  exists (reference_of c ext ct bkt), w2.
  by destruct (Hsecond _ _ Hput2) as [-> _].
Qed.

Lemma md_json_differ (prefix : jsstring) : prefix ++ js "md" <> prefix ++ js "json".
Proof. intros H%app_inv_head. vm_compute in H. discriminate. Qed.

(** C4. Extension sensitivity: puts of the same payload with the
    extensions "md" and "json" resolve to references with the same content
    hash and different file names, at two different locations, and after
    both puts each location holds its own object. *)
Theorem storeContent_extension_sensitivity c ct bkt w r1 w1 r2 w2 :
  storeContent c (js "md") ct bkt w = (Resolved r1, w1) ->
  storeContent c (js "json") ct bkt w1 = (Resolved r2, w2) ->
  StorageInfo.contentHash r1 = StorageInfo.contentHash r2 /\
  StorageInfo.filename r1 <> StorageInfo.filename r2 /\
  location r1 <> location r2 /\
  stored w2 r1 = Some (object_of c (js "md") ct) /\
  stored w2 r2 = Some (object_of c (js "json") ct).
Proof.
  intros Hput1 Hput2.
  destruct (storeContent_resolved _ _ _ _ _ _ _ Hput1) as (Hname1 & -> & Hbs1).
  destruct (storeContent_resolved _ _ _ _ _ _ _ Hput2) as (Hname2 & -> & Hbs2).
  assert (Hnames : forall pre : jsstring,
    pre ++ sha256_hex (to_buffer c) ++ js "." ++ js "md" <>
    pre ++ sha256_hex (to_buffer c) ++ js "." ++ js "json").
  { intros pre. rewrite !(assoc_L (++)). apply md_json_differ. }
  split; [done|]. split; [apply (Hnames [])|]. split.
  { rewrite !location_reference_of. intros H.
    apply (f_equal snd) in H. cbn [snd] in H.
    apply (Hnames (js "cas" ++ js "/")). rewrite <- !(assoc_L (++)). exact H. }
  split; [|by eapply stored_after_put].
  pose proof (stored_after_put _ _ _ _ _ _ Hbs1) as Hst1.
  unfold stored in *. destruct w2 as [bs2 fs2], w1 as [bs1 fs1].
  cbn [buckets] in Hbs2. subst bs2.
  rewrite object_at_written, decide_False; [exact Hst1|].
  rewrite !location_reference_of. cbn [fst snd]. intros [_ H].
  apply (Hnames (js "cas" ++ js "/")). rewrite <- !(assoc_L (++)). exact H.
Qed.

(** C5. Digest and put agree: the content hash of the reference a put
    resolves to is what [generateContentHash] returns for the same payload,
    string or buffer, namely hex(SHA-256) of its bytes.
    [generateContentHash] is a function of its argument alone: it takes no
    backend and returns none. *)
Theorem generateContentHash_agrees_with_put c ext ct bkt w info w1 :
  storeContent c ext ct bkt w = (Resolved info, w1) ->
  StorageInfo.contentHash info = generateContentHash c /\
  generateContentHash c = sha256_hex (to_buffer c).
Proof.
  intros Hput.
  destruct (storeContent_resolved _ _ _ _ _ _ _ Hput) as (Hname & -> & _). done.
Qed.


(** C7, as amended. A put either resolves to the complete reference of
    its arguments, with the whole object stored at its location, or rejects
    and then no object of any bucket was added, removed or changed, and
    every get, of any reference and under any coming answers of the
    service, settles as it would have before the put. What a rejected put
    may leave behind is the bucket, created empty before the write was
    refused; on a backend that serves the calls a later put settles as it
    would have without it. *)
Theorem storeContent_atomic c ext ct bkt w out w1 :
  storeContent c ext ct bkt w = (out, w1) ->
  match out with
  | Resolved info =>
      info = reference_of c ext ct bkt /\
      stored w1 info = Some (object_of c ext ct)
  | Rejected _ =>
      (forall b p, object_at w1 b p = object_at w b p) /\
      (forall info fs,
         (retrieveContent info (World (buckets w1) fs)).1 =
         (retrieveContent info (World (buckets w) fs)).1) /\
      (buckets w1 = buckets w \/
       (buckets w !! (location (reference_of c ext ct bkt)).1 = None /\
        buckets w1 = <[(location (reference_of c ext ct bkt)).1 := ∅]> (buckets w))) /\
      (forall c' ext' ct' bkt' fs, healthy (World (buckets w) fs) ->
         (storeContent c' ext' ct' bkt' (World (buckets w1) fs)).1 =
         (storeContent c' ext' ct' bkt' (World (buckets w) fs)).1)
  end.
Proof.
  intros Hput.
  destruct (storeContent_run _ _ _ _ _ _ _ Hput)
    as [_ [(_ & -> & Hbs)|[(_ & -> & ->)|(a & k & _ & -> & _ & _ & Hbs)]]].
  - split; [done|]. by eapply stored_after_put.
  - repeat split; try done. by left.
  - assert (Hobj : forall fs b p,
      object_at (World (buckets w1) fs) b p = object_at (World (buckets w) fs) b p).
    { intros fs b p. destruct Hbs as [->|[Hnone ->]]; [done|].
      by apply object_at_new_bucket. }
    split; [|split; [|split]].
    + intros b p. apply (Hobj []).
    + intros info fs. apply retrieveContent_ext, Hobj.
    + exact Hbs.
    + intros c' ext' ct' bkt' fs Hfs.
      destruct (decide (default DEFAULT_BUCKET_NAME bkt' = [])) as [Hname|Hname];
        [by rewrite !(storeContent_unnamed _ _ _ _ _ Hname)|].
      destruct (storeContent_healthy c' ext' ct' bkt' (World (buckets w1) fs) Hname Hfs)
        as (? & -> & _).
      by destruct (storeContent_healthy c' ext' ct' bkt' (World (buckets w) fs) Hname Hfs)
        as (? & -> & _).
Qed.


(** C10. The wrappers do not depend on the package: with the same content,
    any two package names and versions give the same outcome (the same
    reference) and the same backend. *)
Theorem wrappers_ignore_package (readme log : jsstring) (results : any)
    (name1 version1 name2 version2 : jsstring) (w : world) :
  storeReadme readme name1 version1 w = storeReadme readme name2 version2 w /\
  storeAnalysisResults results name1 version1 w =
    storeAnalysisResults results name2 version2 w /\
  storeLogOutput log name1 version1 w = storeLogOutput log name2 version2 w.
Proof. done. Qed.
(** ** The empty payload *)

(** A put of the empty payload, string or buffer, into a bucket with a
    name, on a backend that serves the calls resolves to a reference of size 0 whose content hash is the
    SHA-256 of the empty byte sequence, and a get of it resolves to no
    bytes. *)
Lemma empty_payload_roundtrip (c : content) ext ct bkt w :
  to_buffer c = [] -> default DEFAULT_BUCKET_NAME bkt <> [] -> healthy w ->
  exists info w1 w2,
    storeContent c ext ct bkt w = (Resolved info, w1) /\
    StorageInfo.size info = 0%nat /\
    StorageInfo.contentHash info =
      js "e3b0c44298fc1c149afbf4c8996fb92427ae41e4649b934ca495991b7852b855" /\
    length (StorageInfo.contentHash info) = 64%nat /\
    retrieveContent info w1 = (Resolved [], w2).
Proof.
  intros Hc Hname Hw.
  destruct (storeContent_healthy c ext ct bkt w Hname Hw) as (w1 & Hput & Hw1 & Hbs).
  destruct (retrieveContent_healthy (reference_of c ext ct bkt) w1 Hname Hw1)
    as (w2 & Hget & _).
  rewrite (stored_after_put _ _ _ _ _ _ Hbs) in Hget.
  unfold object_of in Hget; cbn [data] in Hget. rewrite Hc in Hget.
  exists (reference_of c ext ct bkt), w1, w2.
  split; [exact Hput|]. split; [|split; [|split; [|exact Hget]]].
  - cbn [reference_of StorageInfo.size]. by rewrite Hc.
  - cbn [reference_of StorageInfo.contentHash]. rewrite Hc. apply sha256_empty.
  - apply sha256_hex_length.
Qed.

Example empty_string_is_empty_payload : to_buffer (Str []) = [] /\ to_buffer (Buf []) = [].
Proof. split; reflexivity. Qed.

End Claims.

#[global] Transparent sha256_hex js Buffer_from.

(** A run is its outcome paired with its final backend. *)
Lemma run_outcome {A} (m : M A) (w : world) (out : outcome A) :
  (m w).1 = out -> m w = (out, (m w).2).
Proof. destruct (m w); simpl; congruence. Qed.

(** ** A run of the scenario *)

Import Scenario.

Lemma put_hello :
  storeContent hello (js "md") markdown None empty_backend =
  (Resolved hello_reference, after_hello).
Proof. apply run_outcome. vm_compute. reflexivity. Qed.

Lemma get_hello : (retrieveContent hello_reference after_hello).1 = Resolved hello_bytes.
Proof. vm_compute. reflexivity. Qed.

Lemma put_json :
  storeContent hello (js "json") markdown None after_hello =
  (Resolved json_reference, after_json).
Proof. apply run_outcome. vm_compute. reflexivity. Qed.

Lemma healthy_after_hello : healthy after_hello.
Proof. vm_compute. constructor. Qed.

Lemma put_refused_write :
  storeContent hello (js "md") markdown None refusing_write =
  (Rejected (ApiError quota), after_refused_write).
Proof. apply run_outcome. vm_compute. reflexivity. Qed.

(** The failed put has created the bucket, and nothing in it. *)
Lemma bucket_left_behind :
  buckets refusing_write !! js "agentic-readme-cas" = None /\
  buckets after_refused_write !! js "agentic-readme-cas" = Some ∅.
Proof. split; vm_compute; reflexivity. Qed.

(** ** Bucket names *)

(** The client strips one leading "gs://" and every trailing slash. *)
Example bucket_id_examples :
  bucket_id (js "gs://my-bucket/") = js "my-bucket" /\
  bucket_id (js "my-bucket") = js "my-bucket" /\
  bucket_id (js "my-bucket//") = js "my-bucket" /\
  bucket_id (js "a/b") = js "a/b" /\
  bucket_id (js "gs://gs://b") = js "gs://b".
Proof. repeat split; vm_compute; reflexivity. Qed.

(** A put and a get without a bucket name are refused by the client: the
    backend is not called. *)
Example no_bucket_name :
  storeContent hello (js "md") markdown (Some []) refusing_write =
    (Rejected (Error BUCKET_NAME_REQUIRED), refusing_write) /\
  retrieveContent (StorageInfo.Build [] (js "cas") (js "readme.md") [] markdown 0)
    refusing_write =
    (Rejected (Error BUCKET_NAME_REQUIRED), refusing_write).
Proof. split; reflexivity. Qed.

(** The object of the scenario is found under another spelling of the name
    of its bucket. *)
Example get_through_alias :
  (retrieveContent
     (StorageInfo.Build (js "gs://agentic-readme-cas/") (js "cas")
        (StorageInfo.filename hello_reference) (StorageInfo.contentHash hello_reference)
        markdown 8)
     after_hello).1 = Resolved hello_bytes.
Proof. vm_compute. reflexivity. Qed.

(** A put under another spelling of the name of the bucket writes into the
    same bucket; the reference it returns has the name as it was given. *)
Example put_through_alias :
  let put :=
    storeContent hello (js "json") markdown (Some (js "gs://agentic-readme-cas/"))
      after_hello in
  (StorageInfo.bucket <$> match put.1 with Resolved info => Some info | _ => None end) =
    Some (js "gs://agentic-readme-cas/") /\
  stored put.2 json_reference = Some (object_of hello (js "json") markdown).
Proof. split; vm_compute; reflexivity. Qed.

(** ** Instances of the claims on the scenario *)

Lemma storeContent_retrieveContent_roundtrip_witness :
  exists w2,
    retrieveContent hello_reference after_hello = (Resolved (to_buffer hello), w2).
Proof.
  refine (proj2 (proj2 (storeContent_retrieveContent_roundtrip hello (js "md")
            markdown None empty_backend hello_reference after_hello _)) _).
  - apply run_outcome. vm_compute. reflexivity.
  - vm_compute. constructor.
Defined.

Lemma storeContent_reference_witness :
  StorageInfo.filename hello_reference = sha256_hex (to_buffer hello) ++ js "." ++ js "md" /\
  StorageInfo.path hello_reference = js "cas" /\
  StorageInfo.contentHash hello_reference = sha256_hex (to_buffer hello) /\
  StorageInfo.contentType hello_reference = markdown /\
  StorageInfo.size hello_reference = length (to_buffer hello).
Proof.
  apply (storeContent_reference hello (js "md") markdown None empty_backend
           hello_reference after_hello).
  apply run_outcome. vm_compute. reflexivity.
Defined.

Lemma storeContent_dedup_witness :
  exists r2 w2,
    storeContent hello (js "md") markdown None after_hello = (Resolved r2, w2) /\
    StorageInfo.filename r2 = StorageInfo.filename hello_reference /\
    StorageInfo.contentHash r2 = StorageInfo.contentHash hello_reference /\
    StorageInfo.size r2 = StorageInfo.size hello_reference /\
    location r2 = location hello_reference /\
    buckets w2 = buckets after_hello.
Proof.
  refine (proj2 (storeContent_dedup hello (js "md") markdown None empty_backend
            hello_reference after_hello _) _).
  - apply run_outcome. vm_compute. reflexivity.
  - vm_compute. constructor.
Defined.

Lemma storeContent_extension_sensitivity_witness :
  StorageInfo.contentHash hello_reference = StorageInfo.contentHash json_reference /\
  StorageInfo.filename hello_reference <> StorageInfo.filename json_reference /\
  location hello_reference <> location json_reference /\
  stored after_json hello_reference = Some (object_of hello (js "md") markdown) /\
  stored after_json json_reference = Some (object_of hello (js "json") markdown).
Proof.
  apply (storeContent_extension_sensitivity hello markdown None empty_backend
           hello_reference after_hello json_reference after_json).
  - apply run_outcome. vm_compute. reflexivity.
  - apply run_outcome. vm_compute. reflexivity.
Defined.

Lemma generateContentHash_agrees_with_put_witness :
  StorageInfo.contentHash hello_reference = generateContentHash hello /\
  generateContentHash hello = sha256_hex (to_buffer hello).
Proof.
  apply (generateContentHash_agrees_with_put hello (js "md") markdown None
           empty_backend hello_reference after_hello).
  apply run_outcome. vm_compute. reflexivity.
Defined.


(** The put whose write is refused, after the bucket was created. *)
Lemma storeContent_atomic_witness :
  stored after_refused_write hello_reference = stored refusing_write hello_reference /\
  (retrieveContent hello_reference (World (buckets after_refused_write) [])).1 =
  (retrieveContent hello_reference (World (buckets refusing_write) [])).1.
Proof.
  pose proof (storeContent_atomic hello (js "md") markdown None refusing_write
                (Rejected (ApiError quota)) after_refused_write) as H.
  cbn beta iota in H. destruct H as (Hobjects & Hget & _).
  - apply run_outcome. vm_compute. reflexivity.
  - split; [apply Hobjects | apply Hget].
Defined.


(** ** What a failed put leaves behind *)

(** C7 as stated fails. The put of the scenario whose write is refused has
    created the bucket. When the service then serves two calls and refuses
    the third, a put on the backend as it was before checks the bucket,
    creates it and has its write refused, while the same put after the
    failed one checks the bucket, writes and resolves: a caller can tell
    that the failed put had started. *)
Lemma put_atomicity_refuted : ~ put_atomicity (P := platform).
Proof.
  intros Hatomic.
  destruct (Hatomic hello (js "md") markdown None refusing_write
              (ApiError quota) after_refused_write put_refused_write
              [None; None; Some quota]) as [_ Hput].
  specialize (Hput hello (js "md") markdown None).
  vm_compute in Hput. discriminate Hput.
Qed.

(** ** The error kinds of a failing put *)


(** ** The UTF-8 decoder *)

Ltac Zify.zify_post_hook ::= Z.to_euclidean_division_equations.

Ltac settle :=
  repeat match goal with
  | |- context [N.leb ?a ?b] => destruct (N.leb_spec a b); try lia
  | |- context [N.eqb ?a ?b] => destruct (N.eqb_spec a b); try lia
  | |- context [N.ltb ?a ?b] => destruct (N.ltb_spec a b); try lia
  end; cbn [andb].

Ltac pow2 :=
  change (2 ^ 3)%N with 8%N in *; change (2 ^ 4)%N with 16%N in *;
  change (2 ^ 5)%N with 32%N in *; change (2 ^ 6)%N with 64%N in *;
  change (2 ^ 12)%N with 4096%N in *; change (2 ^ 18)%N with 262144%N in *;
  change (2 ^ (6 * 0))%N with 1%N in *; change (2 ^ (6 * 1))%N with 64%N in *;
  change (2 ^ (6 * 2))%N with 4096%N in *.

Section Utf8RoundTrip.
Import Utf8Decoder.
Local Open Scope N_scope.

Lemma to_N_byte_of_N n : Byte.to_N (byte_of_N n) = n mod 256.
Proof.
  unfold byte_of_N.
  pose proof (to_of_N_option_map (n mod 256)) as H.
  assert (n mod 256 < 256) by (apply N.mod_lt; lia).
  destruct (Byte.of_N (n mod 256)) as [b|]; simpl in H.
  - destruct (N.leb_spec (n mod 256) 255); [congruence | lia].
  - destruct (N.leb_spec (n mod 256) 255); [congruence | lia].
Qed.

Lemma lor_shiftl_low a x n : x < 2 ^ n -> N.lor (N.shiftl a n) x = a * 2 ^ n + x.
Proof.
  intros Hx.
  assert (Hland : N.land (N.shiftl a n) x = 0).
  { apply N.bits_inj. intros i. rewrite N.land_spec, N.bits_0.
    destruct (N.ltb_spec i n).
    - by rewrite N.shiftl_spec_low.
    - rewrite <- (N.mod_small x (2 ^ n)) by done.
      rewrite N.mod_pow2_bits_high by done. apply andb_false_r. }
  rewrite <- N.lxor_lor by done. rewrite <- N.add_nocarry_lxor by done.
  by rewrite N.shiftl_mul_pow2.
Qed.



Lemma cont_value c k :
  Byte.to_N (Utf8.cont c k) = 128 + (c / 2 ^ (6 * k)) mod 64.
Proof.
  unfold Utf8.cont. rewrite to_N_byte_of_N.
  change 0x3F with (N.ones 6). rewrite N.land_ones, N.shiftr_div_pow2.
  change 0x80 with (N.shiftl 2 6). rewrite lor_shiftl_low by (apply N.mod_lt; lia).
  change (2 ^ 6) with 64. change (N.shiftl 2 6) with 128.
  generalize (c / 2 ^ (6 * k)). intros q. lia.
Qed.

Lemma lead_value (tag width c : N) :
  c < 2 ^ width -> tag * 2 ^ width + c < 256 ->
  Byte.to_N (byte_of_N (N.lor (N.shiftl tag width) c)) = tag * 2 ^ width + c.
Proof.
  intros Hc Hsmall. rewrite to_N_byte_of_N, lor_shiftl_low by done.
  by apply N.mod_small.
Qed.

(** A continuation byte in the allowed range. *)
Lemma step_continuation d n x :
  needed d = S n -> x < 64 ->
  lower d <= 128 + x <= upper d ->
  step d (128 + x) =
  match n with
  | O => (code_units (code_point d * 64 + x), idle)
  | S _ => ([], State (code_point d * 64 + x) n 0x80 0xBF)
  end.
Proof.
  intros Hn Hx [Hlo Hhi]. unfold step. rewrite Hn.
  destruct (N.leb_spec (lower d) (128 + x)); [|lia].
  destruct (N.leb_spec (128 + x) (upper d)); [|lia].
  cbn [andb]. change 0x3F with (N.ones 6). rewrite N.land_ones.
  change (2 ^ 6) with 64.
  replace ((128 + x) mod 64) with x by lia.
  by rewrite lor_shiftl_low by done.
Qed.


Lemma decode_code_point c bs :
  c < 0x110000 -> c < 0xD800 \/ 0xDFFF < c ->
  decode_from idle (Utf8.encode_code_point c ++ bs) =
  code_units c ++ decode_from idle bs.
Proof.
  intros Hmax Hscalar. unfold Utf8.encode_code_point.
  destruct (N.ltb_spec c 0x80) as [H1|H1].
  { cbn [app decode_from]. rewrite to_N_byte_of_N, N.mod_small by lia.
    unfold step, start, code_units; cbn [needed idle]. by settle. }
  destruct (N.ltb_spec c 0x800) as [H2|H2].
  { cbn [app decode_from].
    change 0xC0 with (N.shiftl 6 5). rewrite N.shiftr_div_pow2.
    rewrite lead_value by (pow2; lia). rewrite cont_value. pow2. rewrite N.div_1_r.
    unfold step at 1, start; cbn [needed idle]. settle.
    change 0x1F with (N.ones 5). rewrite N.land_ones. pow2.
    rewrite step_continuation with (n := O) by (cbn; (done || lia)).
    cbn [code_point].
    replace ((6 * 32 + c / 64) mod 32 * 64 + c mod 64) with c by lia. done. }
  destruct (N.ltb_spec c 0x10000) as [H3|H3].
  { cbn [app decode_from].
    change 0xE0 with (N.shiftl 14 4). rewrite N.shiftr_div_pow2.
    rewrite lead_value by (pow2; lia). rewrite !cont_value. pow2. rewrite N.div_1_r.
    unfold step at 1, start; cbn [needed idle].
    change 0xF with (N.ones 4). rewrite N.land_ones. pow2.
    settle.
    all: rewrite step_continuation with (n := 1%nat) by (cbn; (done || lia)).
    all: cbn [code_point].
    all: rewrite step_continuation with (n := O) by (cbn; (done || lia)).
    all: cbn [code_point].
    all: replace (((14 * 16 + c / 4096) mod 16 * 64 + (c / 64) mod 64) * 64 + c mod 64)
           with c by lia.
    all: done. }
  cbn [app decode_from].
  change 0xF0 with (N.shiftl 30 3). rewrite N.shiftr_div_pow2.
  rewrite lead_value by (pow2; lia). rewrite !cont_value. pow2. rewrite N.div_1_r.
  unfold step at 1, start; cbn [needed idle].
  change 0x7 with (N.ones 3). rewrite N.land_ones. pow2.
  settle.
  all: rewrite step_continuation with (n := 2%nat) by (cbn; (done || lia)).
  all: cbn [code_point].
  all: rewrite step_continuation with (n := 1%nat) by (cbn; (done || lia)).
  all: cbn [code_point].
  all: rewrite step_continuation with (n := O) by (cbn; (done || lia)).
  all: cbn [code_point].
  all: replace ((((30 * 8 + c / 262144) mod 8 * 64 + (c / 4096) mod 64) * 64 +
                  (c / 64) mod 64) * 64 + c mod 64) with c by lia.
  all: done.
Qed.

Lemma code_units_pair hi lo :
  Utf8.is_high_surrogate hi = true -> Utf8.is_low_surrogate lo = true ->
  code_units (Utf8.pair_code_point hi lo) = [hi; lo] /\
  Utf8.pair_code_point hi lo < 0x110000 /\ 0xDFFF < Utf8.pair_code_point hi lo.
Proof.
  unfold Utf8.is_high_surrogate, Utf8.is_low_surrogate, Utf8.pair_code_point, code_units.
  intros [H1 H2]%andb_true_iff [H3 H4]%andb_true_iff.
  apply N.leb_le in H1, H2, H3, H4.
  rewrite N.shiftl_mul_pow2. change (2 ^ 10) with 1024.
  split; [|lia].
  destruct (N.ltb_spec (65536 + (hi - 55296) * 1024 + (lo - 56320)) 65536); [lia|].
  rewrite N.shiftr_div_pow2. change 0x3FF with (N.ones 10). rewrite N.land_ones.
  change (2 ^ 10) with 1024. f_equal; [lia|]. f_equal. lia.
Qed.

Lemma decode_replacement bs :
  decode_from idle (Utf8.replacement ++ bs) = 0xFFFD :: decode_from idle bs.
Proof. unfold Utf8.replacement. by rewrite decode_code_point by lia. Qed.

Lemma decode_encode_bounded n : forall s,
  (length s <= n)%nat -> Forall (fun u => u < 0x10000) s ->
  decode (Utf8.encode s) = toWellFormed s.
Proof.
  unfold decode. induction n as [|n IH]; intros [|u rest] Hlen Hs; try done;
    cbn [length] in Hlen; [lia|].
  apply Forall_cons in Hs as [Hu Hrest].
  cbn [Utf8.encode toWellFormed].
  destruct (Utf8.is_high_surrogate u) eqn:Hhi.
  - destruct rest as [|v rest']; [by rewrite <- (app_nil_r Utf8.replacement), decode_replacement|].
    destruct (Utf8.is_low_surrogate v) eqn:Hlo.
    + destruct (code_units_pair u v Hhi Hlo) as (Hunits & Hmax & Hmin).
      rewrite decode_code_point, Hunits by lia.
      apply Forall_cons in Hrest as [_ Hrest'].
      cbn [app]. rewrite IH; [done| cbn [length] in Hlen; lia | done].
    + rewrite decode_replacement, IH; [done|lia|done].
  - destruct (Utf8.is_low_surrogate u) eqn:Hlo.
    + rewrite decode_replacement, IH; [done|lia|done].
    + assert (u < 0xD800 \/ 0xDFFF < u) as Hscalar.
      { unfold Utf8.is_high_surrogate, Utf8.is_low_surrogate in *.
        destruct (N.leb_spec 0xD800 u), (N.leb_spec u 0xDBFF),
          (N.leb_spec 0xDC00 u), (N.leb_spec u 0xDFFF); cbn in *; try done; lia. }
      rewrite decode_code_point by lia.
      unfold code_units. destruct (N.ltb_spec u 0x10000); [|lia].
      cbn [app]. rewrite IH; [done|lia|done].
Qed.

Lemma WellFormed_toWellFormed s : WellFormed s -> toWellFormed s = s.
Proof.
  induction 1 as [|u s Hu Hhi Hlo _ IH|hi lo s Hhi Hlo _ IH]; cbn [toWellFormed].
  - done.
  - by rewrite Hhi, Hlo, IH.
  - by rewrite Hhi, Hlo, IH.
Qed.

Lemma WellFormed_units s : WellFormed s -> Forall (fun u => u < 0x10000) s.
Proof.
  induction 1 as [|u s Hu Hhi Hlo _ IH|hi lo s Hhi Hlo _ IH]; [done|by constructor|].
  unfold Utf8.is_high_surrogate, Utf8.is_low_surrogate in *.
  apply andb_true_iff in Hhi as [_ ?%N.leb_le], Hlo as [_ ?%N.leb_le].
  repeat constructor; [lia|lia|done].
Qed.

Lemma toWellFormed_fixed n : forall s,
  (length s <= n)%nat -> Forall (fun u => u < 0x10000) s -> toWellFormed s = s ->
  WellFormed s.
Proof.
  induction n as [|n IH]; intros [|u rest] Hlen Hs Hfix;
    [apply WellFormed_nil | cbn [length] in Hlen; lia | apply WellFormed_nil |].
  cbn [length] in Hlen.
  apply Forall_cons in Hs as [Hu Hrest]. cbn [toWellFormed] in Hfix.
  destruct (Utf8.is_high_surrogate u) eqn:Hhi.
  - destruct rest as [|v rest']; [injection Hfix as <-; by vm_compute in Hhi|].
    destruct (Utf8.is_low_surrogate v) eqn:Hlo.
    + injection Hfix as Hfix. apply Forall_cons in Hrest as [_ Hrest'].
      apply WellFormed_pair; [done..|]. apply IH; [cbn [length] in Hlen; lia|done..].
    + injection Hfix as <- _. by vm_compute in Hhi.
  - destruct (Utf8.is_low_surrogate u) eqn:Hlo.
    + injection Hfix as <- _. by vm_compute in Hlo.
    + injection Hfix as Hfix. apply WellFormed_unit; [done..|]. apply IH; [lia|done..].
Qed.

Lemma decode_encode s :
  Forall (fun u => u < 0x10000) s ->
  Buffer_toString (Buffer_from s) = toWellFormed s.
Proof. intros. by eapply decode_encode_bounded. Qed.

(** X1. [Buffer.from(s)] followed by [toString('utf8')] gives [s] back with
    every lone surrogate replaced by U+FFFD, for every string [s] of 16-bit
    code units; so it gives back [s] itself when [s] is well formed. *)
Theorem Buffer_toString_Buffer_from s :
  Forall (fun u => u < 0x10000) s ->
  Buffer_toString (Buffer_from s) = toWellFormed s /\
  (WellFormed s -> Buffer_toString (Buffer_from s) = s).
Proof.
  intros Hs. split; [by apply decode_encode|].
  intros Hwf. rewrite decode_encode by done. by apply WellFormed_toWellFormed.
Qed.

Lemma clean_nil : clean [].
Proof. by split. Qed.

Lemma clean_app out1 out2 : clean out1 -> clean out2 -> clean (out1 ++ out2).
Proof.
  intros [H1 H1'] [H2 H2']. split; [by apply Forall_app|].
  intros t. by rewrite <- !(assoc_L (++)), H1', H2'.
Qed.

Lemma clean_unit u : u < 0xD800 \/ 0xDFFF < u -> u < 0x10000 -> clean [u].
Proof.
  intros Hu Hmax. split; [by repeat constructor|]. intros t. cbn [app toWellFormed].
  unfold Utf8.is_high_surrogate, Utf8.is_low_surrogate. by settle.
Qed.

Lemma clean_code_units c :
  c < 0x110000 -> c < 0xD800 \/ 0xDFFF < c -> clean (code_units c).
Proof.
  intros Hmax Hscalar. unfold code_units.
  destruct (N.ltb_spec c 0x10000); [by apply clean_unit|].
  rewrite N.shiftr_div_pow2. change 0x3FF with (N.ones 10). rewrite N.land_ones.
  change (2 ^ 10) with 1024.
  split; [repeat constructor; lia|]. intros t. cbn [app toWellFormed].
  unfold Utf8.is_high_surrogate, Utf8.is_low_surrogate. by settle.
Qed.

Lemma land_low b n : N.land b (N.ones n) = b mod 2 ^ n.
Proof. apply N.land_ones. Qed.

Lemma start_ok b :
  b < 256 -> clean (start b).1 /\ open_ok (start b).2.
Proof.
  intros Hb. unfold start.
  change 0x1F with (N.ones 5); change 0xF with (N.ones 4); change 0x7 with (N.ones 3).
  rewrite !land_low. pow2.
  settle; cbn [fst snd open_ok needed idle code_point lower upper];
    (split; [first [apply clean_nil | apply clean_unit; lia]|]); try done; lia.
Qed.

Lemma step_ok d b :
  open_ok d -> b < 256 -> clean (step d b).1 /\ open_ok (step d b).2.
Proof.
  intros Hd Hb. unfold step.
  destruct (needed d) as [|[|[|[|n]]]] eqn:Hn; unfold open_ok in Hd; rewrite Hn in Hd;
    [by apply start_ok| | | |done].
  all: destruct ((lower d <=? b) && (b <=? upper d)) eqn:Hrange;
    [ apply andb_true_iff in Hrange as [Hlo%N.leb_le Hhi%N.leb_le]
    | destruct (start b) as [out d'] eqn:Hstart;
      pose proof (start_ok b Hb) as [Hclean Hopen]; rewrite Hstart in Hclean, Hopen;
      cbn [fst snd] in *; split; [|done];
      change (0xFFFD :: out) with ([0xFFFD] ++ out);
      apply clean_app; [apply clean_unit; lia|done] ].
  all: change 0x3F with (N.ones 6); rewrite land_low, lor_shiftl_low by (apply N.mod_lt; done).
  all: pow2; cbn [fst snd open_ok needed idle code_point lower upper].
  - split; [|done]. apply clean_code_units; lia.
  - split; [apply clean_nil|]. lia.
  - split; [apply clean_nil|]. lia.
Qed.

Lemma decode_from_clean bs : forall d, open_ok d -> clean (decode_from d bs).
Proof.
  induction bs as [|b rest IH]; intros d Hd; cbn [decode_from].
  - destruct (needed d); [apply clean_nil|apply clean_unit; lia].
  - assert (Byte.to_N b < 256) as Hb.
    { pose proof (to_of_N_option_map (Byte.to_N b)) as H.
      rewrite of_to_N in H. cbn in H. destruct (N.leb_spec (Byte.to_N b) 255); [lia|done]. }
    destruct (step_ok d (Byte.to_N b) Hd Hb) as [Hclean Hopen].
    destruct (step d (Byte.to_N b)) as [out d']. cbn [fst snd] in *.
    apply clean_app; [done|by apply IH].
Qed.

Lemma decode_well_formed (bs : Buffer) : WellFormed (Buffer_toString bs).
Proof.
  destruct (decode_from_clean bs idle I) as [Hunits Hwf].
  apply (toWellFormed_fixed (length (Buffer_toString bs))); [done..|].
  specialize (Hwf []). by rewrite !app_nil_r in Hwf.
Qed.


(** X2. Whatever the bytes, valid UTF-8 or not, [toString('utf8')] returns a
    well-formed string: 16-bit code units, surrogates only in pairs. *)
Theorem Buffer_toString_well_formed (bs : Buffer) : WellFormed (Buffer_toString bs).
Proof. apply decode_well_formed. Qed.
End Utf8RoundTrip.

(** ** Strings through the store *)

Section StoredStrings.
Context {P : Platform}.
Implicit Types (s : jsstring) (w : world) (info : StorageInfo.t).

Lemma retrieveContentAsString_run info w :
  retrieveContentAsString info w =
  (match (retrieveContent info w).1 with
   | Resolved bytes => Resolved (Buffer_toString bytes)
   | Rejected e => Rejected e
   end, (retrieveContent info w).2).
Proof.
  unfold retrieveContentAsString, bind, ret.
  by destruct (retrieveContent info w) as [[bytes|e] w1].
Qed.

(** X3. A string put into the store and read back with
    [retrieveContentAsString] comes back with every lone surrogate replaced
    by U+FFFD, so unchanged when it is well formed. *)
Theorem retrieveContentAsString_after_put s ext ct bkt w info w1 :
  storeContent (Str s) ext ct bkt w = (Resolved info, w1) ->
  healthy w1 ->
  Forall (fun u => (u < 0x10000)%N) s ->
  (exists w2, retrieveContentAsString info w1 = (Resolved (toWellFormed s), w2)) /\
  (WellFormed s -> toWellFormed s = s).
Proof.
  intros Hput Hw1 Hs. split; [|apply WellFormed_toWellFormed].
  destruct (storeContent_resolved _ _ _ _ _ _ _ Hput) as (Hname & -> & Hbs).
  destruct (retrieveContent_healthy (reference_of (Str s) ext ct bkt) w1 Hname Hw1)
    as (w2 & Hget & _).
  rewrite (stored_after_put _ _ _ _ _ _ Hbs) in Hget.
  exists w2. rewrite retrieveContentAsString_run, Hget. cbn [fst snd object_of data to_buffer].
  by rewrite decode_encode.
Qed.

(** X4. Whatever object a reference points to, a string that
    [retrieveContentAsString] resolves to is well formed. *)
Theorem retrieveContentAsString_well_formed info w t w1 :
  retrieveContentAsString info w = (Resolved t, w1) -> WellFormed t.
Proof.
  rewrite retrieveContentAsString_run.
  destruct (retrieveContent info w).1 as [bytes|e]; [|done].
  intros [= <- _]. apply decode_well_formed.
Qed.


Lemma encode_code_point_length c :
  (1 <= length (Utf8.encode_code_point c) <= 4)%nat /\
  ((c < 0x10000)%N -> (length (Utf8.encode_code_point c) <= 3)%nat) /\
  ((0x10000 <= c)%N -> length (Utf8.encode_code_point c) = 4%nat).
Proof.
  unfold Utf8.encode_code_point.
  destruct (N.ltb_spec c 0x80), (N.ltb_spec c 0x800), (N.ltb_spec c 0x10000);
    cbn [length]; lia.
Qed.

Lemma encode_length n : forall s,
  (length s <= n)%nat -> Forall (fun u => (u < 0x10000)%N) s ->
  (length s <= length (Utf8.encode s) <= 3 * length s)%nat.
Proof.
  induction n as [|n IH]; intros [|u rest] Hlen Hs; cbn [length] in Hlen;
    try (cbn [Utf8.encode length]; lia).
  apply Forall_cons in Hs as [Hu Hrest]. cbn [Utf8.encode].
  assert (Hrep : length Utf8.replacement = 3%nat) by reflexivity.
  destruct (Utf8.is_high_surrogate u).
  - destruct rest as [|v rest']; [rewrite Hrep; cbn [length]; lia|].
    destruct (Utf8.is_low_surrogate v).
    + apply Forall_cons in Hrest as [_ Hrest'].
      destruct (encode_code_point_length (Utf8.pair_code_point u v)) as (_ & _ & Hfour).
      rewrite length_app, Hfour by (unfold Utf8.pair_code_point; lia).
      cbn [length] in *. specialize (IH rest' ltac:(lia) Hrest'). lia.
    + rewrite length_app, Hrep. specialize (IH (v :: rest') ltac:(lia) Hrest).
      cbn [length] in *. lia.
  - destruct (encode_code_point_length u) as (? & Hbmp & _). specialize (Hbmp Hu).
    destruct (Utf8.is_low_surrogate u); rewrite length_app, ?Hrep;
      specialize (IH rest ltac:(lia) Hrest); cbn [length]; lia.
Qed.

(** X6. The size recorded for a string is its number of UTF-8 bytes, not
    its length: for a string of [n] code units it lies between [n] and
    [3 * n]. *)
Theorem storeContent_string_size s ext ct bkt w info w1 :
  storeContent (Str s) ext ct bkt w = (Resolved info, w1) ->
  Forall (fun u => (u < 0x10000)%N) s ->
  (length s <= StorageInfo.size info <= 3 * length s)%nat.
Proof.
  intros Hput Hs.
  destruct (storeContent_resolved _ _ _ _ _ _ _ Hput) as (Hname & -> & _).
  cbn [reference_of StorageInfo.size to_buffer]. by eapply encode_length.
Qed.

End StoredStrings.

(** ** What a put leaves alone *)

#[global] Opaque sha256_hex js.

Section Frame.
Context {P : Platform}.
Implicit Types (w : world) (info : StorageInfo.t) (c : content).

Lemma put_frame c ext ct bkt w out w1 b p :
  storeContent c ext ct bkt w = (out, w1) ->
  (b, p) <> location (reference_of c ext ct bkt) ->
  object_at w1 b p = object_at w b p.
Proof.
  intros Hput Hother.
  destruct (storeContent_run _ _ _ _ _ _ _ Hput)
    as [_ [(_ & _ & Hbs)|[(_ & _ & ->)|Hfail]]]; [|done|].
  - destruct w1 as [bs1 fs1], w as [bs fs]. cbn [buckets] in Hbs. subst bs1.
    rewrite object_at_written, decide_False; [done|].
    intros [-> ->]. by destruct (location _).
  - destruct Hfail as (_ & _ & _ & _ & _ & _ & [Hbs|[Hnone Hbs]]);
      destruct w1 as [bs1 fs1], w as [bs fs]; cbn [buckets] in *; subst bs1; [done|].
    exact (object_at_new_bucket bs fs _ b p Hnone).
Qed.

(** X7. Whether it resolves or rejects, a put changes no object other than
    the one at the location of its own reference. *)
Theorem storeContent_frame c ext ct bkt w out w1 b p :
  storeContent c ext ct bkt w = (out, w1) ->
  (b, p) <> location (reference_of c ext ct bkt) ->
  object_at w1 b p = object_at w b p.
Proof. apply put_frame. Qed.

(** The file name is the digest, 64 characters, a dot and the extension:
    it gives both back. *)
Lemma filename_inj (b1 b2 : Buffer) (ext1 ext2 : jsstring) :
  sha256_hex b1 ++ js "." ++ ext1 = sha256_hex b2 ++ js "." ++ ext2 ->
  sha256_hex b1 = sha256_hex b2 /\ ext1 = ext2.
Proof.
  intros H.
  apply app_inj_1 in H as [Hh He]; [|by rewrite !sha256_hex_length].
  split; [done|]. by apply app_inv_head in He.
Qed.

(** X8. Two puts whose references have the same file name have the same
    content hash and were given the same extension: a hash followed by an
    extension is never read as another hash and extension. *)
Theorem storeContent_filename_inj c1 c2 ext1 ext2 ct1 ct2 bkt1 bkt2 w w' info1 info2 w1 w2 :
  storeContent c1 ext1 ct1 bkt1 w = (Resolved info1, w1) ->
  storeContent c2 ext2 ct2 bkt2 w' = (Resolved info2, w2) ->
  StorageInfo.filename info1 = StorageInfo.filename info2 ->
  StorageInfo.contentHash info1 = StorageInfo.contentHash info2 /\ ext1 = ext2.
Proof.
  intros Hput1 Hput2.
  destruct (storeContent_resolved _ _ _ _ _ _ _ Hput1) as (Hname1 & -> & _).
  destruct (storeContent_resolved _ _ _ _ _ _ _ Hput2) as (Hname2 & -> & _).
  cbn [reference_of StorageInfo.filename StorageInfo.contentHash].
  apply filename_inj.
Qed.

(** X9. Once a put has resolved, a later put of content with another digest,
    under any extension, type and bucket, resolved or not, leaves the object
    of the first reference as it is. *)
Theorem storeContent_keeps_other_digests c1 c2 ext1 ext2 ct1 ct2 bkt1 bkt2 w info1 w1 out w2 :
  storeContent c1 ext1 ct1 bkt1 w = (Resolved info1, w1) ->
  storeContent c2 ext2 ct2 bkt2 w1 = (out, w2) ->
  generateContentHash c2 <> generateContentHash c1 ->
  stored w2 info1 = Some (object_of c1 ext1 ct1).
Proof.
  intros Hput1 Hput2 Hdigest.
  destruct (storeContent_resolved _ _ _ _ _ _ _ Hput1) as (Hname1 & -> & Hbs).
  rewrite <- (stored_after_put _ _ _ _ _ _ Hbs). unfold stored.
  eapply put_frame; [exact Hput2|].
  rewrite !location_reference_of. intros Hpath.
  apply (f_equal snd) in Hpath. cbn [snd] in Hpath.
  apply app_inv_head in Hpath. apply app_inv_head in Hpath.
  apply filename_inj in Hpath as [Hh _]. by apply Hdigest.
Qed.


(** X11. On a backend that serves the calls each wrapper resolves to a
    reference into the default bucket, with its own extension and content
    type, and [retrieveContentAsString] of that reference resolves to the
    text that was stored (lone surrogates replaced by U+FFFD): the README
    under ".md" as text/markdown, the results, when [JSON.stringify] gives a
    string for them, under ".json" as application/json, the log under
    ".log" as text/plain. When [JSON.stringify] gives [undefined] for the
    results, [storeAnalysisResults] rejects with a [TypeError], and when it
    throws, with what it throws; no call of the service is made then. *)
Theorem wrappers_round_trip (readme log : jsstring) (results : any)
    (name version : jsstring) (w : world) :
  healthy w ->
  (Forall (fun u => (u < 0x10000)%N) readme ->
   exists info w1 w2,
     storeReadme readme name version w = (Resolved info, w1) /\
     StorageInfo.bucket info = DEFAULT_BUCKET_NAME /\
     StorageInfo.filename info = generateContentHash (Str readme) ++ js ".md" /\
     StorageInfo.contentType info = js "text/markdown" /\
     retrieveContentAsString info w1 = (Resolved (toWellFormed readme), w2)) /\
  (forall jsonContent,
   JSON_stringify results = Text jsonContent ->
   Forall (fun u => (u < 0x10000)%N) jsonContent ->
   exists info w1 w2,
     storeAnalysisResults results name version w = (Resolved info, w1) /\
     StorageInfo.bucket info = DEFAULT_BUCKET_NAME /\
     StorageInfo.filename info = generateContentHash (Str jsonContent) ++ js ".json" /\
     StorageInfo.contentType info = js "application/json" /\
     retrieveContentAsString info w1 = (Resolved (toWellFormed jsonContent), w2)) /\
  (JSON_stringify results = Undefined ->
   storeAnalysisResults results name version w =
     (Rejected (TypeError ERR_INVALID_ARG_TYPE), w)) /\
  (forall e, JSON_stringify results = Throws e ->
   storeAnalysisResults results name version w = (Rejected e, w)) /\
  (Forall (fun u => (u < 0x10000)%N) log ->
   exists info w1 w2,
     storeLogOutput log name version w = (Resolved info, w1) /\
     StorageInfo.bucket info = DEFAULT_BUCKET_NAME /\
     StorageInfo.filename info = generateContentHash (Str log) ++ js ".log" /\
     StorageInfo.contentType info = js "text/plain" /\
     retrieveContentAsString info w1 = (Resolved (toWellFormed log), w2)).
Proof.
  intros Hw.
  assert (Hany : forall s ext ct, Forall (fun u => (u < 0x10000)%N) s ->
    exists info w1 w2,
      storeContent (Str s) ext ct (Some DEFAULT_BUCKET_NAME) w = (Resolved info, w1) /\
      StorageInfo.bucket info = DEFAULT_BUCKET_NAME /\
      StorageInfo.filename info = generateContentHash (Str s) ++ js "." ++ ext /\
      StorageInfo.contentType info = ct /\
      retrieveContentAsString info w1 = (Resolved (toWellFormed s), w2)).
  { intros s ext ct Hs.
    pose proof DEFAULT_BUCKET_NAME_not_empty as Hname.
    destruct (storeContent_healthy (Str s) ext ct (Some DEFAULT_BUCKET_NAME) w Hname Hw)
      as (w1 & Hput & Hw1 & Hbs).
    destruct (retrieveContent_healthy
                (reference_of (Str s) ext ct (Some DEFAULT_BUCKET_NAME)) w1 Hname Hw1)
      as (w2 & Hget & _).
    rewrite (stored_after_put _ _ _ _ _ _ Hbs) in Hget.
    exists (reference_of (Str s) ext ct (Some DEFAULT_BUCKET_NAME)), w1, w2.
    repeat split; [done|].
    rewrite retrieveContentAsString_run, Hget. cbn [fst snd object_of data to_buffer].
    by rewrite decode_encode. }
  split; [|split; [|split; [|split]]].
  - intros Hs. apply (Hany readme (js "md") (js "text/markdown") Hs).
  - intros jsonContent Hjson Hs. unfold storeAnalysisResults. rewrite Hjson.
    apply (Hany jsonContent (js "json") (js "application/json") Hs).
  - intros Hjson. unfold storeAnalysisResults. by rewrite Hjson.
  - intros e Hjson. unfold storeAnalysisResults. by rewrite Hjson.
  - intros Hs. apply (Hany log (js "log") (js "text/plain") Hs).
Qed.
End Frame.

#[global] Transparent sha256_hex js.

(** ** The validators *)

Section RegExpCorrect.
Implicit Types (p q : pattern) (s t : jsstring) (c : N).

Lemma matches_fail_inv s : ~ matches Fail s.
Proof. inversion 1. Qed.

Lemma matches_empty_inv s : matches Empty s -> s = [].
Proof. by inversion 1. Qed.

Lemma matches_class_inv ranges s :
  matches (Class ranges) s -> exists c, s = [c] /\ in_class ranges c = true.
Proof. inversion 1; eauto. Qed.

Lemma matches_seq_inv p q s :
  matches (Seq p q) s -> exists s1 s2, s = s1 ++ s2 /\ matches p s1 /\ matches q s2.
Proof. inversion 1; eauto. Qed.

Lemma matches_alt_inv p q s : matches (Alt p q) s -> matches p s \/ matches q s.
Proof. inversion 1; eauto. Qed.

Lemma matches_seq_cons p q c s t :
  matches p (c :: s) -> matches q t -> matches (Seq p q) (c :: s ++ t).
Proof. intros. change (c :: s ++ t) with ((c :: s) ++ t). by constructor. Qed.

Lemma nullable_matches p : nullable p = true <-> matches p [].
Proof.
  induction p as [| |ranges|p IHp q IHq|p IHp q IHq|p IHp]; cbn [nullable].
  - split; [done|]. by intros ?%matches_fail_inv.
  - split; [constructor|done].
  - split; [done|]. by intros (c & ? & _)%matches_class_inv.
  - rewrite andb_true_iff, IHp, IHq. split.
    + intros [H1 H2]. change (@nil N) with (@nil N ++ []). by constructor.
    + intros (s1 & s2 & Heq & H1 & H2)%matches_seq_inv.
      symmetry in Heq. by apply app_eq_nil in Heq as [-> ->].
  - rewrite orb_true_iff, IHp, IHq. split.
    + intros [H|H]; [by apply matches_alt_l|by apply matches_alt_r].
    + apply matches_alt_inv.
  - split; [constructor|done].
Qed.

Lemma matches_star_cons_inv p c s :
  matches (Star p) (c :: s) ->
  exists s1 s2, s = s1 ++ s2 /\ matches p (c :: s1) /\ matches (Star p) s2.
Proof.
  intros H. remember (Star p) as q eqn:Hq. remember (c :: s) as cs eqn:Hcs.
  revert Hcs. induction H as [| | | | | |p' s1 s2 H1 _ H2 IH2]; try done.
  injection Hq as ->. destruct s1 as [|c' s1]; cbn [app]; intros Hcs.
  - by apply IH2.
  - injection Hcs as -> <-. eauto.
Qed.

Lemma derive_matches c p s : matches (derive c p) s <-> matches p (c :: s).
Proof.
  revert s. induction p as [| |ranges|p IHp q IHq|p IHp q IHq|p IHp]; intros s;
    cbn [derive].
  - split; by intros ?%matches_fail_inv.
  - split; [by intros ?%matches_fail_inv|by intros ?%matches_empty_inv].
  - destruct (in_class ranges c) eqn:Hc; split.
    + intros ->%matches_empty_inv. by constructor.
    + intros (c' & [= <- ->] & _)%matches_class_inv. constructor.
    + by intros ?%matches_fail_inv.
    + intros (c' & [= <- ->] & ?)%matches_class_inv. congruence.
  - assert (Hseq : matches (Seq (derive c p) q) s <->
                   exists s1 s2, s = s1 ++ s2 /\ matches p (c :: s1) /\ matches q s2).
    { split.
      - intros (s1 & s2 & -> & H1 & H2)%matches_seq_inv. apply IHp in H1. eauto.
      - intros (s1 & s2 & -> & H1 & H2). constructor; [by apply IHp|done]. }
    split.
    + intros H.
      assert (matches (Seq (derive c p) q) s \/
              (nullable p = true /\ matches (derive c q) s)) as [H'|[Hnull H']].
      { destruct (nullable p); [|by left].
        apply matches_alt_inv in H as [H|H]; [by left|by right]. }
      * apply Hseq in H' as (s1 & s2 & -> & H1 & H2). by apply matches_seq_cons.
      * change (c :: s) with ([] ++ c :: s).
        constructor; [by apply nullable_matches|by apply IHq].
    + intros (s1 & s2 & Heq & H1 & H2)%matches_seq_inv.
      destruct s1 as [|c' s1]; cbn [app] in Heq.
      * subst s2. apply nullable_matches in H1 as ->.
        apply matches_alt_r. by apply IHq.
      * injection Heq as <- ->.
        assert (matches (Seq (derive c p) q) (s1 ++ s2)) by (apply Hseq; eauto).
        destruct (nullable p); [by apply matches_alt_l|done].
  - split.
    + intros [H|H]%matches_alt_inv;
        [apply matches_alt_l; by apply IHp|apply matches_alt_r; by apply IHq].
    + intros [H|H]%matches_alt_inv;
        [apply matches_alt_l; by apply IHp|apply matches_alt_r; by apply IHq].
  - split.
    + intros (s1 & s2 & -> & H1 & H2)%matches_seq_inv.
      change (c :: s1 ++ s2) with ((c :: s1) ++ s2). constructor; [by apply IHp|done].
    + intros (s1 & s2 & -> & H1 & H2)%matches_star_cons_inv.
      constructor; [by apply IHp|done].
Qed.

Lemma test_matches p s : test p s = true <-> matches p s.
Proof.
  unfold test. revert p. induction s as [|c s IH]; intros p; cbn [fold_left].
  - apply nullable_matches.
  - rewrite IH. apply derive_matches.
Qed.
End RegExpCorrect.

Section Validators.
Implicit Types (s t : jsstring) (c : N).

Lemma matches_star_class ranges s :
  matches (Star (Class ranges)) s <-> forallb (in_class ranges) s = true.
Proof.
  induction s as [|c s IH].
  - split; [done|constructor].
  - cbn [forallb]. rewrite andb_true_iff, <- IH. split.
    + intros (s1 & s2 & -> & H1 & H2)%matches_star_cons_inv.
      apply matches_class_inv in H1 as (c' & [= <- ->] & Hc). done.
    + intros [Hc Hs]. change (c :: s) with ([c] ++ s). constructor; [by constructor|done].
Qed.

Lemma matches_class_star first rest s :
  matches (Seq (Class first) (Star (Class rest))) s <->
  exists c cs, s = c :: cs /\ in_class first c = true /\ forallb (in_class rest) cs = true.
Proof.
  split.
  - intros (s1 & s2 & -> & H1 & H2)%matches_seq_inv.
    apply matches_class_inv in H1 as (c & -> & Hc).
    apply matches_star_class in H2. eauto.
  - intros (c & cs & -> & Hc & Hcs). change (c :: cs) with ([c] ++ cs).
    constructor; [by constructor|by apply matches_star_class].
Qed.

Lemma matches_char a s : matches (Char a) s <-> s = [N_of_ascii a].
Proof.
  split.
  - intros (c & -> & Hc)%matches_class_inv. f_equal.
    unfold in_class, one, range in Hc. cbn [existsb fst snd] in Hc.
    rewrite orb_false_r in Hc. apply andb_true_iff in Hc as [?%N.leb_le ?%N.leb_le]. lia.
  - intros ->. constructor. unfold in_class, one, range. cbn [existsb fst snd].
    by rewrite !N.leb_refl.
Qed.

Lemma single_range (n c : N) : (n <=? c)%N && (c <=? n)%N = (c =? n)%N.
Proof.
  destruct (N.leb_spec n c), (N.leb_spec c n), (N.eqb_spec c n); cbn [andb];
    first [reflexivity | lia].
Qed.

Lemma forallb_eq {A} (f g : A -> bool) (l : list A) :
  (forall x, f x = g x) -> forallb f l = forallb g l.
Proof. intros H. induction l as [|x l IH]; cbn [forallb]; [done|]. by rewrite H, IH. Qed.

Ltac class_tests :=
  unfold in_class, one, range; cbn [existsb fst snd];
  rewrite ?single_range, ?orb_false_r, ?orb_assoc; reflexivity.

Lemma name_first_class c :
  in_class [range "a" "z"; range "0" "9"; one "-"; one "~"] c = name_start c.
Proof. class_tests. Qed.

Lemma name_char_class c :
  in_class [range "a" "z"; range "0" "9"; one "-"; one "."; one "_"; one "~"] c =
  name_part c.
Proof.
  unfold name_part, name_start. 
  unfold in_class, one, range; cbn [existsb fst snd].
  rewrite ?single_range, ?orb_false_r.
  fold (is_char "-" c) (is_char "~" c) (is_char "." c) (is_char "_" c).
  change ((N_of_ascii "a" <=? c)%N && (c <=? N_of_ascii "z")%N) with (lowercase c).
  change ((N_of_ascii "0" <=? c)%N && (c <=? N_of_ascii "9")%N) with (decimal_digit c).
  destruct (lowercase c), (decimal_digit c), (is_char "-" c), (is_char "~" c),
    (is_char "." c), (is_char "_" c); reflexivity.
Qed.

Lemma matches_plain_name s :
  matches (Seq name_first (Star name_char)) s <-> plain_name s = true.
Proof.
  unfold name_first, name_char. rewrite matches_class_star. split.
  - intros (c & cs & -> & Hc & Hcs). cbn [plain_name].
    rewrite <- name_first_class, Hc. cbn [andb].
    erewrite forallb_eq; [exact Hcs|]. intros; symmetry; apply name_char_class.
  - destruct s as [|c cs]; [done|]. cbn [plain_name].
    intros [Hc Hcs]%andb_true_iff. exists c, cs. split; [done|].
    rewrite name_first_class. split; [done|].
    erewrite forallb_eq; [exact Hcs|]. intros; apply name_char_class.
Qed.

Lemma package_name_language s :
  isValidPackageName s = true <->
  plain_name s = true \/
  exists scope name,
    s = js "@" ++ scope ++ js "/" ++ name /\
    plain_name scope = true /\ plain_name name = true.
Proof.
  unfold isValidPackageName. rewrite test_matches. unfold package_name_pattern, Opt.
  split.
  - intros (s1 & s2 & -> & H1 & H2)%matches_seq_inv.
    apply matches_plain_name in H2.
    apply matches_alt_inv in H1 as [H1| ->%matches_empty_inv]; [|by left].
    right. apply matches_seq_inv in H1 as (a & t & -> & ->%matches_char & H1).
    assert (exists scope, t = scope ++ js "/" /\ plain_name scope = true)
      as (scope & -> & Hscope).
    { apply matches_seq_inv in H1 as (c1 & t1 & -> & Hc1 & H1).
      apply matches_seq_inv in H1 as (cs & t2 & -> & Hcs & ->%matches_char).
      exists (c1 ++ cs). split; [by rewrite <- (assoc_L (++))|].
      apply matches_plain_name. by constructor. }
    exists scope, s2. split; [|done]. by rewrite <- !(assoc_L (++)).
  - intros [Hplain|(scope & name & -> & Hscope & Hname)].
    + change s with ([] ++ s). constructor; [apply matches_alt_r; constructor|].
      by apply matches_plain_name.
    + rewrite !(assoc_L (++)). constructor; [|by apply matches_plain_name].
      apply matches_alt_l. rewrite <- !(assoc_L (++)).
      constructor; [by apply matches_char|].
      apply matches_plain_name in Hscope.
      apply matches_seq_inv in Hscope as (c1 & cs & -> & Hc1 & Hcs).
      rewrite <- (assoc_L (++)). constructor; [done|].
      constructor; [done|by apply matches_char].
Qed.

(** X12. [isValidPackageName] accepts exactly the unscoped names, a start
    character [a-z0-9-~] followed by characters [a-z0-9-._~], and the scoped
    names [@scope/name] whose scope and name are such names. *)
Theorem isValidPackageName_spec s :
  isValidPackageName s = true <->
  plain_name s = true \/
  exists scope name,
    s = js "@" ++ scope ++ js "/" ++ name /\
    plain_name scope = true /\ plain_name name = true.
Proof.
  split.
  - intros H. by apply package_name_language.
  - intros H. by apply package_name_language.
Qed.

(** X13. A valid package name is not empty and consists of lower-case
    letters, digits and the characters [-._~@/] only (no upper-case letter,
    space, quote or backslash); it contains a slash only when it starts
    with [@]. *)
Theorem isValidPackageName_characters s :
  isValidPackageName s = true ->
  s <> [] /\
  Forall (fun c => name_part c = true \/ c = N_of_ascii "@" \/ c = N_of_ascii "/") s /\
  (In (N_of_ascii "/") s -> exists rest, s = N_of_ascii "@" :: rest).
Proof.
  assert (Hplain : forall t, plain_name t = true ->
    t <> [] /\ Forall (fun c => name_part c = true) t /\ ~ In (N_of_ascii "/") t).
  { intros [|c cs]; [done|]. cbn [plain_name]. intros [Hc Hcs]%andb_true_iff.
    assert (Forall (fun c => name_part c = true) (c :: cs)) as Hall.
    { constructor; [unfold name_part; by rewrite Hc|].
      apply Forall_forall. intros x Hx%list_elem_of_In. by apply (forallb_forall name_part cs). }
    split; [done|]. split; [done|]. intros Hin%list_elem_of_In.
    rewrite Forall_forall in Hall. by apply Hall in Hin. }
  intros [Hs|(scope & name & -> & Hscope & Hname)]%package_name_language.
  - destruct (Hplain s Hs) as (Hne & Hall & Hslash). split; [done|]. split.
    + eapply Forall_impl; [exact Hall|]. by left.
    + by intros ?%Hslash.
  - destruct (Hplain _ Hscope) as (_ & Hall1 & _), (Hplain _ Hname) as (_ & Hall2 & _).
    split; [done|]. split; [|by eexists].
    change (js "@") with [N_of_ascii "@"]. change (js "/") with [N_of_ascii "/"].
    cbn [app]. constructor; [by right; left|]. apply Forall_app. split.
    + eapply Forall_impl; [exact Hall1|]. by left.
    + constructor; [by right; right|]. eapply Forall_impl; [exact Hall2|]. by left.
Qed.

Lemma digit_class c : in_class [range "0" "9"] c = decimal_digit c.
Proof. class_tests. Qed.

Lemma matches_numeric s : matches numeric s <-> version_number s = true.
Proof.
  unfold numeric. split.
  - intros [->%matches_char|H]%matches_alt_inv; [done|].
    apply matches_class_star in H as (c & cs & -> & Hc & Hcs). cbn [version_number].
    assert (is_char "0" c = false /\ decimal_digit c = true) as [-> ->].
    { revert Hc. unfold in_class, range, is_char, decimal_digit. cbn [existsb fst snd].
      rewrite orb_false_r. intros [?%N.leb_le ?%N.leb_le]%andb_true_iff.
      change (N_of_ascii "1") with 49%N in *. change (N_of_ascii "9") with 57%N in *.
      change (N_of_ascii "0") with 48%N.
      destruct (N.eqb_spec c 48), (N.leb_spec 48 c), (N.leb_spec c 57); cbn [andb];
        first [done | lia]. }
    cbn [andb]. erewrite forallb_eq; [exact Hcs|]. intros; symmetry; apply digit_class.
  - destruct s as [|c cs]; [done|]. cbn [version_number].
    destruct (is_char "0" c) eqn:Hzero.
    + intros ->%bool_decide_eq_true. apply matches_alt_l, matches_char.
      unfold is_char in Hzero. by apply N.eqb_eq in Hzero as ->.
    + intros [Hc Hcs]%andb_true_iff. apply matches_alt_r, matches_class_star.
      exists c, cs. split; [done|]. split.
      * revert Hzero Hc. unfold in_class, range, is_char, decimal_digit.
        cbn [existsb fst snd]. rewrite orb_false_r.
        change (N_of_ascii "1") with 49%N. change (N_of_ascii "9") with 57%N.
        change (N_of_ascii "0") with 48%N.
        destruct (N.eqb_spec c 48), (N.leb_spec 48 c), (N.leb_spec c 57),
          (N.leb_spec 49 c); cbn [andb]; first [done | lia].
      * erewrite forallb_eq; [exact Hcs|]. intros; apply digit_class.
Qed.

(** X14. A valid version starts with three numbers separated by dots, each
    [0] or digits without a leading zero; what follows the third is
    nothing, or starts with [-] (pre-release) or [+] (build). *)
Theorem isValidPackageVersion_structure s :
  isValidPackageVersion s = true ->
  exists major minor patch rest,
    s = major ++ js "." ++ minor ++ js "." ++ patch ++ rest /\
    version_number major = true /\ version_number minor = true /\
    version_number patch = true /\
    (rest = [] \/ exists t, rest = js "-" ++ t \/ rest = js "+" ++ t).
Proof.
  unfold isValidPackageVersion. rewrite test_matches. unfold package_version_pattern.
  intros (major & s1 & -> & Hmajor%matches_numeric & H)%matches_seq_inv.
  apply matches_seq_inv in H as (d1 & s2 & -> & ->%matches_char & H).
  apply matches_seq_inv in H as (minor & s3 & -> & Hminor%matches_numeric & H).
  apply matches_seq_inv in H as (d2 & s4 & -> & ->%matches_char & H).
  apply matches_seq_inv in H as (patch & s5 & -> & Hpatch%matches_numeric & H).
  apply matches_seq_inv in H as (pre & build & -> & Hpre & Hbuild).
  exists major, minor, patch, (pre ++ build). repeat split; try done.
  apply matches_alt_inv in Hpre as [Hpre| ->%matches_empty_inv].
  - apply matches_seq_inv in Hpre as (h & t & -> & ->%matches_char & _).
    right. exists (t ++ build). left. by rewrite <- (assoc_L (++)).
  - apply matches_alt_inv in Hbuild as [Hbuild| ->%matches_empty_inv]; [|by left].
    apply matches_seq_inv in Hbuild as (h & t & -> & ->%matches_char & _).
    right. exists t. by right.
Qed.

(** X15. Three numbers separated by dots, each [0] or digits without a
    leading zero, make a valid version. *)
Theorem isValidPackageVersion_core major minor patch :
  version_number major = true -> version_number minor = true ->
  version_number patch = true ->
  isValidPackageVersion (major ++ js "." ++ minor ++ js "." ++ patch) = true.
Proof.
  intros Hmajor%matches_numeric Hminor%matches_numeric Hpatch%matches_numeric.
  unfold isValidPackageVersion. rewrite test_matches. unfold package_version_pattern.
  constructor; [done|]. constructor; [by apply matches_char|].
  constructor; [done|]. constructor; [by apply matches_char|].
  rewrite <- (app_nil_r patch). constructor; [done|].
  change (@nil N) with (@nil N ++ []). constructor; apply matches_alt_r; constructor.
Qed.
End Validators.

(** ** Saving the results of an analysis *)

#[global] Opaque sha256_hex js.

Section Save.
Context {P : Platform} {R : Records}.
Implicit Types (w : world) (d : database).

Lemma in_store_run {A} (m : M A) w d :
  in_store m (w, d) = ((m w).1, ((m w).2, d)).
Proof. unfold in_store. cbn [fst snd]. by destruct (m w). Qed.

Lemma in_database_run {A} (q : database -> outcome A * database) w d :
  in_database q (w, d) = ((q d).1, (w, (q d).2)).
Proof. unfold in_database. cbn [fst snd]. by destruct (q d). Qed.

(** The database part of [saveAnalysisResults] leaves the store alone. *)
Lemma database_part_store {A} (q : Task A) w d :
  (forall w0 d0, (q (w0, d0)).2.1 = w0) -> (q (w, d)).2.1 = w.
Proof. auto. Qed.

(** Different extensions, different locations. *)
Lemma locations_differ c1 c2 ext1 ext2 ct1 ct2 bkt1 bkt2 :
  ext1 <> ext2 ->
  location (reference_of c1 ext1 ct1 bkt1) <> location (reference_of c2 ext2 ct2 bkt2).
Proof.
  intros Hext. rewrite !location_reference_of. intros Hloc.
  apply (f_equal snd) in Hloc. cbn [snd] in Hloc.
  apply app_inv_head in Hloc. apply app_inv_head in Hloc.
  by apply filename_inj in Hloc as [_ ?].
Qed.

(** [saveAnalysisResults] is its store part, then, if that resolved, its
    database part. *)
Lemma saveAnalysisResults_parts n v r log w d :
  saveAnalysisResults n v r log (w, d) =
  match store_part n v r log w with
  | (Resolved infos, w') =>
      ((database_part n v r infos d).1, (w', (database_part n v r infos d).2))
  | (Rejected e, w') => (Rejected e, (w', d))
  end.
Proof.
  unfold saveAnalysisResults, store_part, database_part, task_bind, task_ret, bind, ret.
  destruct (truthy (readme_of r)) as [readme|].
  - rewrite in_store_run.
    destruct (storeReadme readme n v w) as [[info1|e] w1]; cbn [fst snd]; [|done].
    rewrite in_store_run.
    destruct (storeAnalysisResults (as_any r) n v w1) as [[info2|e] w2];
      cbn [fst snd]; [|done].
    rewrite in_store_run.
    destruct (storeLogOutput log n v w2) as [[info3|e] w3]; cbn [fst snd]; [|done].
    rewrite in_database_run.
    destruct (prisma_package_upsert n (description_of r) d) as [[pkg|e] d1];
      cbn [fst snd]; [|done].
    rewrite in_database_run.
    destruct (prisma_packageVersion_upsert (package_id pkg) v d1) as [[pv|e] d2];
      cbn [fst snd]; [|done].
    rewrite in_database_run.
    destruct (prisma_readme_upsert _ _ _ d2) as [[[]|e] d3]; cbn [fst snd]; [|done].
    rewrite in_database_run.
    by destruct (prisma_verification_create _ _ _ _ d3) as [[[]|e] d4].
  - rewrite in_store_run.
    destruct (storeAnalysisResults (as_any r) n v w) as [[info2|e] w2];
      cbn [fst snd]; [|done].
    rewrite in_store_run.
    destruct (storeLogOutput log n v w2) as [[info3|e] w3]; cbn [fst snd]; [|done].
    rewrite in_database_run.
    destruct (prisma_package_upsert n (description_of r) d) as [[pkg|e] d1];
      cbn [fst snd]; [|done].
    rewrite in_database_run.
    destruct (prisma_packageVersion_upsert (package_id pkg) v d1) as [[pv|e] d2];
      cbn [fst snd]; [|done].
    rewrite in_database_run.
    by destruct (prisma_verification_create _ _ _ _ d2) as [[[]|e] d4].
Qed.

Lemma in_drop {A} (x : A) n (l : list A) : In x (drop n l) -> In x l.
Proof.
  revert l. induction n as [|n IH]; intros [|y l]; cbn [drop]; try done.
  intros H. right. by apply IH.
Qed.

Lemma writes_ret {A} (a : A) : writes (ret a) [].
Proof.
  intros w. unfold ret. cbn [fst snd]. split; [done|]. split; [by exists 0%nat|].
  left. eauto.
Qed.

Lemma writes_put c ext ct bkt :
  default DEFAULT_BUCKET_NAME bkt <> [] ->
  writes (storeContent c ext ct bkt) [(reference_of c ext ct bkt, object_of c ext ct)].
Proof.
  intros Hname w. destruct (storeContent c ext ct bkt w) as [out w1] eqn:Hput. cbn [fst snd].
  split; [intros b p [Hb _]%Forall_cons; by apply (put_frame _ _ _ _ _ _ _ _ _ Hput)|].
  destruct (storeContent_named _ _ _ _ _ _ _ Hname Hput) as [Hdrop [[-> Hbs]|Hfail]].
  - split; [done|]. left. eexists. split; [done|]. repeat constructor.
    by eapply stored_after_put.
  - split; [done|]. right. destruct Hfail as (a & k & -> & _ & [Hk _] & _).
    exists a. split; [done|]. apply list_elem_of_In. by eapply list_elem_of_lookup_2.
Qed.

Lemma writes_bind {A B} (m : M A) (k : A -> M B) objs1 objs2 :
  writes m objs1 -> (forall a, writes (k a) objs2) ->
  Forall (fun io1 => Forall (fun io2 => location io1.1 <> location io2.1) objs2) objs1 ->
  writes (bind m k) (objs1 ++ objs2).
Proof.
  intros Hm Hk Hapart w. unfold bind.
  destruct (Hm w) as (Hframe1 & [n1 Hdrop1] & Hout1).
  destruct (m w) as [[a|e] w1]; cbn [fst snd] in *.
  - destruct (Hk a w1) as (Hframe2 & [n2 Hdrop2] & Hout2).
    destruct (k a w1) as [out2 w2]; cbn [fst snd] in *.
    split; [|split].
    + intros b p [H1 H2]%Forall_app. rewrite Hframe2 by done. by apply Hframe1.
    + exists (n1 + n2)%nat. by rewrite Hdrop2, Hdrop1, drop_drop.
    + destruct Hout1 as [(a' & _ & Hstored1)|(e & [=] & _)].
      destruct Hout2 as [(b & -> & Hstored2)|(e & -> & Hin)].
      * left. eexists. split; [done|]. apply Forall_app. split; [|done].
        rewrite Forall_forall in Hstored1, Hapart. apply Forall_forall.
        intros io Hio. unfold stored. rewrite Hframe2; [by apply Hstored1|].
        specialize (Hapart io Hio). eapply Forall_impl; [exact Hapart|].
        intros io2 Hne Heq. apply Hne. by destruct (location io.1), (location io2.1).
      * right. exists e. split; [done|]. eapply in_drop. by rewrite <- Hdrop1.
  - split; [|split].
    + intros b p [H1 _]%Forall_app. by apply Hframe1.
    + eauto.
    + right. destruct Hout1 as [(a & [=] & _)|(a & [= ->] & Hin)]. eauto.
Qed.

(** The store part writes the objects of [saved_objects] and no other; it
    rejects only with an error the store backend gave. *)
Lemma store_part_writes n v r log :
  writes (store_part n v r log) (saved_objects r log).
Proof.
  assert (Hjson_log : js "json" <> js "log") by (by vm_compute).
  assert (Hmd_json : js "md" <> js "json") by (by vm_compute).
  assert (Hmd_log : js "md" <> js "log") by (by vm_compute).
  pose proof DEFAULT_BUCKET_NAME_not_empty as Hname.
  unfold store_part, saved_objects, storeAnalysisResults.
  rewrite JSON_stringify_as_any.
  apply writes_bind; [| |].
  - destruct (truthy (readme_of r)) as [readme|]; [|apply writes_ret].
    rewrite <- (app_nil_r [_]).
    apply writes_bind; [by apply writes_put| |by repeat constructor].
    intros info. apply writes_ret.
  - intros info1. change [?x; ?y] with ([x] ++ [y]).
    apply writes_bind; [by apply writes_put| |].
    + intros info2. rewrite <- (app_nil_r [_]).
      apply writes_bind; [by apply writes_put| |by repeat constructor].
      intros info3. apply writes_ret.
    + repeat constructor. cbn [fst]. by apply locations_differ.
  - destruct (truthy (readme_of r)); repeat constructor; cbn [fst];
      by apply locations_differ.
Qed.

(** X16. [saveAnalysisResults] stores before it writes to the database:
    either a call of the store backend was refused, then it rejects with
    that error and the database is as it was; or the README (when there is
    one), the results and the log are in the store, each at the location of
    its reference, whatever became of the database calls: a database call
    that rejects leaves the stored objects behind. *)
Theorem saveAnalysisResults_store_first n v r log w d out w' d' :
  saveAnalysisResults n v r log (w, d) = (out, (w', d')) ->
  (exists a, out = Rejected (ApiError a) /\ In (Some a) (faults w) /\ d' = d) \/
  Forall (fun io => stored w' io.1 = Some io.2) (saved_objects r log).
Proof.
  rewrite saveAnalysisResults_parts.
  destruct (store_part_writes n v r log w) as (_ & _ & Hout).
  destruct (store_part n v r log w) as [[infos|e] w1]; cbn [fst snd] in *.
  - intros [= _ <- _]. right. by destruct Hout as [(? & _ & ?)|(? & [=] & _)].
  - intros [= <- _ <-]. left. destruct Hout as [(? & [=] & _)|(a & [= ->] & Hin)]. eauto.
Qed.

(** X17. [saveAnalysisResults] changes no object of the store other than
    those of its references: the results, the log and, only when the
    analysis has a README that is not empty, the README. *)
Theorem saveAnalysisResults_frame n v r log w d out w' d' b p :
  saveAnalysisResults n v r log (w, d) = (out, (w', d')) ->
  Forall (fun io => (b, p) <> location io.1) (saved_objects r log) ->
  object_at w' b p = object_at w b p.
Proof.
  rewrite saveAnalysisResults_parts.
  destruct (store_part_writes n v r log w) as (Hframe & _ & _).
  destruct (store_part n v r log w) as [[infos|e] w1]; cbn [fst snd] in *;
    intros [= _ <- _]; apply Hframe.
Qed.
End Save.

#[global] Transparent sha256_hex js.

(** ** Instances of the further properties on the scenarios *)

Import SaveScenario.

Lemma task_outcome {A B C} (x : A * (B * C)) (out : A) :
  x.1 = out -> x = (out, (x.2.1, x.2.2)).
Proof. destruct x as [a [b c]]. cbn. congruence. Qed.

Lemma code_units_checked (s : jsstring) :
  forallb (fun u => (u <? 0x10000)%N) s = true -> Forall (fun u => (u < 0x10000)%N) s.
Proof.
  intros H. apply Forall_forall. intros u Hu%list_elem_of_In.
  apply N.ltb_lt. by apply (proj1 (forallb_forall _ s) H).
Qed.

Lemma Buffer_toString_Buffer_from_witness :
  Buffer_toString (Buffer_from lone_surrogate) = toWellFormed lone_surrogate /\
  (WellFormed lone_surrogate -> Buffer_toString (Buffer_from lone_surrogate) = lone_surrogate).
Proof. apply Buffer_toString_Buffer_from. apply code_units_checked. vm_compute. reflexivity. Defined.

Lemma retrieveContentAsString_after_put_witness :
  (exists w2,
     retrieveContentAsString hello_reference after_hello =
     (Resolved (toWellFormed readme_text), w2)) /\
  (WellFormed readme_text -> toWellFormed readme_text = readme_text).
Proof.
  apply (retrieveContentAsString_after_put readme_text (js "md") markdown None
           empty_backend hello_reference after_hello).
  - apply run_outcome. vm_compute. reflexivity.
  - vm_compute. constructor.
  - apply code_units_checked. vm_compute. reflexivity.
Defined.

Lemma retrieveContentAsString_well_formed_witness : WellFormed readme_text.
Proof.
  apply (retrieveContentAsString_well_formed hello_reference after_hello readme_text
           (retrieveContentAsString hello_reference after_hello).2).
  apply run_outcome. vm_compute. reflexivity.
Defined.


Lemma storeContent_string_size_witness :
  (length readme_text <= StorageInfo.size hello_reference <= 3 * length readme_text)%nat.
Proof.
  apply (storeContent_string_size readme_text (js "md") markdown None empty_backend
           hello_reference after_hello).
  - apply run_outcome. vm_compute. reflexivity.
  - apply code_units_checked. vm_compute. reflexivity.
Defined.

(** The put of the ".json" object, into the bucket under another spelling
    of its name, leaves the ".md" object alone. *)
Lemma storeContent_frame_witness :
  object_at
    (storeContent hello (js "json") markdown (Some (js "gs://agentic-readme-cas/"))
       after_hello).2
    (location hello_reference).1 (location hello_reference).2 =
  object_at after_hello (location hello_reference).1 (location hello_reference).2.
Proof.
  apply (storeContent_frame hello (js "json") markdown
           (Some (js "gs://agentic-readme-cas/")) after_hello
           (storeContent hello (js "json") markdown (Some (js "gs://agentic-readme-cas/"))
              after_hello).1).
  - apply run_outcome. reflexivity.
  - vm_compute. discriminate.
Defined.

Lemma storeContent_filename_inj_witness :
  StorageInfo.contentHash hello_reference = StorageInfo.contentHash hello_reference /\
  js "md" = js "md".
Proof.
  apply (storeContent_filename_inj hello hello (js "md") (js "md") markdown markdown
           None None empty_backend after_hello hello_reference hello_reference
           after_hello (storeContent hello (js "md") markdown None after_hello).2).
  - apply run_outcome. vm_compute. reflexivity.
  - apply run_outcome. vm_compute. reflexivity.
  - reflexivity.
Defined.

Lemma storeContent_keeps_other_digests_witness :
  stored (storeContent (Str log_text) (js "md") markdown None after_hello).2
    hello_reference =
  Some (object_of hello (js "md") markdown).
Proof.
  apply (storeContent_keeps_other_digests hello (Str log_text) (js "md") (js "md")
           markdown markdown None None empty_backend hello_reference after_hello
           (storeContent (Str log_text) (js "md") markdown None after_hello).1).
  - apply run_outcome. vm_compute. reflexivity.
  - apply run_outcome. reflexivity.
  - vm_compute. discriminate.
Defined.


(** The README of the scenario, and [undefined] handed in as the results. *)
Lemma wrappers_round_trip_witness :
  (exists info w1 w2,
     storeReadme readme_text (js "lodash") (js "4.17.21") empty_backend =
       (Resolved info, w1) /\
     StorageInfo.bucket info = DEFAULT_BUCKET_NAME /\
     StorageInfo.filename info = generateContentHash (Str readme_text) ++ js ".md" /\
     StorageInfo.contentType info = js "text/markdown" /\
     retrieveContentAsString info w1 = (Resolved (toWellFormed readme_text), w2)) /\
  storeAnalysisResults (P := platform) None (js "lodash") (js "4.17.21") empty_backend =
    (Rejected (TypeError ERR_INVALID_ARG_TYPE), empty_backend).
Proof.
  destruct (wrappers_round_trip (P := platform) readme_text log_text None
              (js "lodash") (js "4.17.21") empty_backend)
    as (Hreadme & _ & Hundefined & _).
  - vm_compute. constructor.
  - split.
    + apply Hreadme. apply code_units_checked. vm_compute. reflexivity.
    + apply Hundefined. reflexivity.
Defined.

Lemma isValidPackageName_spec_witness :
  plain_name (js "@types/react") = true \/
  exists scope name,
    js "@types/react" = js "@" ++ scope ++ js "/" ++ name /\
    plain_name scope = true /\ plain_name name = true.
Proof. apply isValidPackageName_spec. vm_compute. reflexivity. Defined.

Lemma isValidPackageName_characters_witness :
  js "lodash" <> [] /\
  Forall (fun c => name_part c = true \/ c = N_of_ascii "@" \/ c = N_of_ascii "/")
    (js "lodash") /\
  (In (N_of_ascii "/") (js "lodash") -> exists rest, js "lodash" = N_of_ascii "@" :: rest).
Proof. apply isValidPackageName_characters. vm_compute. reflexivity. Defined.

Lemma isValidPackageVersion_structure_witness :
  exists major minor patch rest,
    js "1.0.0-beta.1" = major ++ js "." ++ minor ++ js "." ++ patch ++ rest /\
    version_number major = true /\ version_number minor = true /\
    version_number patch = true /\
    (rest = [] \/ exists t, rest = js "-" ++ t \/ rest = js "+" ++ t).
Proof. apply isValidPackageVersion_structure. vm_compute. reflexivity. Defined.

Lemma isValidPackageVersion_core_witness :
  isValidPackageVersion (js "10" ++ js "." ++ js "0" ++ js "." ++ js "3") = true.
Proof. apply isValidPackageVersion_core; vm_compute; reflexivity. Defined.

(** The store has served every call and the database none: the objects are
    stored although [saveAnalysisResults] rejects. *)
Lemma saveAnalysisResults_store_first_witness :
  (exists a, saved.1 = Rejected (ApiError a) /\ In (Some a) (faults empty_backend) /\
     saved.2.2 = 0%nat) \/
  Forall (fun io => stored saved.2.1 io.1 = Some io.2) (saved_objects (P := platform) (R := records) tt log_text).
Proof.
  apply (saveAnalysisResults_store_first (P := platform) (R := records) (js "lodash") (js "4.17.21") tt log_text
           empty_backend 0%nat).
  apply task_outcome. reflexivity.
Defined.

Lemma saveAnalysisResults_frame_witness :
  object_at saved.2.1 (js "agentic-readme-cas") (js "cas/other.md") =
  object_at empty_backend (js "agentic-readme-cas") (js "cas/other.md").
Proof.
  apply (saveAnalysisResults_frame (P := platform) (R := records) (js "lodash") (js "4.17.21") tt log_text
           empty_backend 0%nat saved.1 saved.2.1 saved.2.2).
  - apply task_outcome. reflexivity.
  - vm_compute. repeat constructor; discriminate.
Defined.
